(** * cstring: a shallow embedding of [src/cstring.c]

    The C extension type [cstring] stores a NUL-terminated byte buffer
    behind a CPython variable-size object header.  Pointers into a buffer
    are modelled as integer offsets into a [list byte]; every read or write
    outside the buffer is the outcome [Undefined].  Library routines of the
    C runtime ([strlen], [strstr], [strchr], [memcmp], [memcpy], <ctype.h>)
    are modelled by what ISO C says about them on the string or memory
    they are pointed at. *)

From Stdlib Require Import ZArith Lia String Ascii.
From stdpp Require Import base option list gmap.

Local Open Scope Z_scope.

(** ** Bytes, outcomes *)

(** A [char] read as its unsigned value, 0..255. *)
Abbreviation byte := Z.

(** The bytes of a string literal (without the terminator). *)
Definition bytes (s : string) : list byte :=
  (λ a, Z.of_N (N_of_ascii a)) <$> list_ascii_of_string s.

(** The Python exceptions the module raises. *)
Inductive exn := TypeError | IndexError | ValueError | SystemError | MemoryError.

(** What a call does: it returns, raises, reads or writes outside an
    object ([Undefined]), or is still running when the iteration budget of
    a [while] loop is used up ([OutOfFuel]). *)
Inductive outcome (A : Type) : Type :=
| Ok (a : A)
| Raise (e : exn)
| Undefined
| OutOfFuel.
Arguments Ok {A} a.
Arguments Raise {A} e.
Arguments Undefined {A}.
Arguments OutOfFuel {A}.

#[global] Instance outcome_ret : MRet outcome := λ A, Ok.
#[global] Instance outcome_bind : MBind outcome := λ A B f m,
  match m with
  | Ok a => f a
  | Raise e => Raise e
  | Undefined => Undefined
  | OutOfFuel => OutOfFuel
  end.

(** ** Memory and the C library *)

(** [*p] for [p = buf + i]. *)
Definition rd (buf : list byte) (i : Z) : outcome byte :=
  if i <? 0 then Undefined else from_option Ok Undefined (buf !! Z.to_nat i).

(** [buf[i] = b]. *)
Definition wr (buf : list byte) (i : Z) (b : byte) : outcome (list byte) :=
  if (i <? 0) || (Z.of_nat (length buf) <=? i) then Undefined
  else Ok (<[Z.to_nat i := b]> buf).

(** [memcpy(dst + d, src + s, n)]; a negative [n] converts to a huge
    [size_t]. *)
Definition memcpy (dst : list byte) (d : Z) (src : list byte) (s : Z) (n : Z)
  : outcome (list byte) :=
  if (n <? 0) || (d <? 0) || (s <? 0)
     || (Z.of_nat (length dst) <? d + n) || (Z.of_nat (length src) <? s + n)
  then Undefined
  else Ok (take (Z.to_nat d) dst
           ++ take (Z.to_nat n) (drop (Z.to_nat s) src)
           ++ drop (Z.to_nat (d + n)) dst).

(** The string a pointer points at: the bytes before the first NUL of the
    memory [l] that starts at the pointer. *)
Fixpoint c_str (l : list byte) : outcome (list byte) :=
  match l with
  | [] => Undefined
  | c :: l' => if c =? 0 then Ok [] else s ← c_str l'; Ok (c :: s)
  end.

(** The memory that can be read from the pointer [buf + i] on. *)
Definition mem_from (buf : list byte) (i : Z) : list byte :=
  if i <? 0 then [] else drop (Z.to_nat i) buf.

Definition str_at (buf : list byte) (i : Z) : outcome (list byte) :=
  c_str (mem_from buf i).

Definition strlen (buf : list byte) (i : Z) : outcome Z :=
  s ← str_at buf i; Ok (Z.of_nat (length s)).

Fixpoint is_prefix (n h : list byte) : bool :=
  match n, h with
  | [], _ => true
  | a :: n', b :: h' => (a =? b) && is_prefix n' h'
  | _ :: _, [] => false
  end.

(** Offset of the first occurrence of the string [n] in the string [h]. *)
Fixpoint find_sub (n h : list byte) {struct h} : option Z :=
  if is_prefix n h then Some 0
  else match h with
       | [] => None
       | _ :: h' => Z.succ <$> find_sub n h'
       end.

(** [strstr(hbuf + i, nbuf + j)]: [None] is the NULL pointer, [Some k] the
    pointer [hbuf + k]. *)
Definition strstr (hbuf : list byte) (i : Z) (nbuf : list byte) (j : Z)
  : outcome (option Z) :=
  h ← str_at hbuf i; n ← str_at nbuf j; Ok ((λ k, i + k) <$> find_sub n h).

(** [strchr(s, c) != NULL] for the string [s]: the terminator is part of
    the string, so [c = 0] is always found. *)
Definition strchr (s : list byte) (c : byte) : bool :=
  (c =? 0) || existsb (Z.eqb c) s.

(** [memcmp(a, b, n) == 0] on the memory from each pointer on, compared
    byte by byte up to the first difference. *)
Fixpoint memcmp (a b : list byte) (n : nat) : outcome bool :=
  match n with
  | O => Ok true
  | S n' =>
      match a, b with
      | x :: a', y :: b' => if x =? y then memcmp a' b' n' else Ok false
      | _, _ => Undefined
      end
  end.

(** <ctype.h> in the "C" locale. *)
Definition isdigit (c : byte) : bool := (48 <=? c) && (c <=? 57).
Definition isupper (c : byte) : bool := (65 <=? c) && (c <=? 90).
Definition islower (c : byte) : bool := (97 <=? c) && (c <=? 122).
Definition isalpha (c : byte) : bool := isupper c || islower c.
Definition isalnum (c : byte) : bool := isalpha c || isdigit c.
Definition isspace (c : byte) : bool := (c =? 32) || ((9 <=? c) && (c <=? 13)).
Definition isprint (c : byte) : bool := (32 <=? c) && (c <=? 126).
Definition tolower (c : byte) : byte := if isupper c then c + 32 else c.
Definition toupper (c : byte) : byte := if islower c then c - 32 else c.

(** [#define WHITESPACE_CHARS " \t\n\v\f\r"] *)
Definition WHITESPACE_CHARS : list byte := [32; 9; 10; 11; 12; 13].

(** [PY_SSIZE_T_MAX] on an LP64 platform. *)
Definition PY_SSIZE_T_MAX : Z := 2 ^ 63 - 1.

(** ** The object *)

(** [struct cstring { PyObject_VAR_HEAD; Py_hash_t hash; char value[]; }].
    [value] is the storage that follows the header, all of it. *)
Record cstring := Cstring {
  ob_refcnt : Z;
  ob_size : Z;
  hash : Z;
  value : list byte
}.

Definition set_refcnt (c : cstring) (n : Z) : cstring :=
  {| ob_refcnt := n; ob_size := ob_size c; hash := hash c; value := value c |}.
Definition set_hash (c : cstring) (h : Z) : cstring :=
  {| ob_refcnt := ob_refcnt c; ob_size := ob_size c; hash := h; value := value c |}.
Definition set_value (c : cstring) (v : list byte) : cstring :=
  {| ob_refcnt := ob_refcnt c; ob_size := ob_size c; hash := hash c; value := v |}.

(** [CSTRING_ALLOC(tp, len)] is [tp->tp_alloc(tp, len)].  The type leaves
    [tp_alloc] to CPython's [PyType_GenericAlloc], which allocates room for
    [len + 1] items, fills the whole object with zero bytes, and sets the
    reference count to 1 and [ob_size] to [len].  Allocation is taken to
    succeed. *)
Definition CSTRING_ALLOC (len : Z) : cstring :=
  {| ob_refcnt := 1; ob_size := len; hash := 0;
     value := replicate (Z.to_nat (len + 1)) 0 |}.

(** [Py_SIZE(self) - 1] *)
Definition cstring_len (self : cstring) : Z := ob_size self - 1.

(** The content of a value: the [length] bytes before the terminator. *)
Definition content (self : cstring) : list byte :=
  take (Z.to_nat (cstring_len self)) (value self).

(** [_cstring_new(type, src + i, len)] *)
Definition _cstring_new (src : list byte) (i : Z) (len : Z) : outcome cstring :=
  let new := CSTRING_ALLOC (len + 1) in
  let new := set_hash new (-1) in
  v ← memcpy (value new) 0 src i len;
  v ← wr v (ob_size new - 1) 0;
  Ok (set_value new v).

Definition _cstring_copy (self : cstring) : outcome cstring :=
  _cstring_new (value self) 0 (ob_size self - 1).


(** The arguments the methods receive: host text (as its UTF-8 bytes), a
    [bytes] object, another object with the buffer protocol (a
    [memoryview], an [array], ...), a [cstring], or an object of another
    type.  Text and [bytes] keep a NUL after their last byte.  Of another
    buffer the model keeps what [PyObject_GetBuffer] gives: the memory that
    can be read from [view.buf] on, and [view.len]; that memory may go on
    past [view.len] (a slice of a larger buffer) and need not hold a NUL
    there. *)
Inductive PyObject :=
| PyUnicode (utf8 : list byte)
| PyBytes (b : list byte)
| PyBuffer (mem : list byte) (len : Z)
| PyCstring (c : cstring)
| PyOther.

(** What a method hands back where the source distinguishes them: a new
    reference to the receiver ([Py_INCREF(self), self]), a new reference to
    the empty singleton ([cstring_new_empty()]), or a new object. *)
Inductive objref :=
| Same
| Empty
| New (c : cstring).

(** The singleton, as [cstring_new_empty] creates it on first use. *)
Definition cstring_EMPTY : outcome cstring := _cstring_new [0] 0 0.

(** Returns the buffer and, through [*s], the size. *)
Definition _obj_as_string_and_size (o : PyObject) : outcome (list byte * Z) :=
  match o with
  | PyUnicode u => Ok (u ++ [0], Z.of_nat (length u))
  | PyBytes b => Ok (b ++ [0], Z.of_nat (length b))
  | PyBuffer mem len => Ok (mem, len)
  | PyCstring c => Ok (value c, ob_size c - 1)
  | PyOther => Raise TypeError
  end.

Definition cstring_new (argobj : PyObject) : outcome objref :=
  match argobj with
  | PyCstring _ => Ok Same
  | _ =>
      '(buffer, len) ← _obj_as_string_and_size argobj;
      if len =? 0 then Ok Empty
      else new ← _cstring_new buffer 0 len; Ok (New new)
  end.

(** The object the constructor builds from the non-empty bytes [bs], and
    the singleton for [bs = []]. *)
Definition mk (bs : list byte) : cstring :=
  {| ob_refcnt := 1; ob_size := Z.of_nat (length bs) + 1; hash := -1;
     value := bs ++ [0; 0] |}.

(** Returns the object as a [cstring] where the source returns 1. *)
Definition _ensure_cstring (o : PyObject) : outcome cstring :=
  match o with
  | PyCstring c => Ok c
  | _ => Raise TypeError
  end.

(** ** Hashing and comparison *)

(** [cstring_hash]: the value returned and the object with its cache.
    [_Py_HashBytes] is CPython's, taken as a parameter. *)
Definition cstring_hash (_Py_HashBytes : list byte → Z) (self : cstring)
  : Z * cstring :=
  let self :=
    if hash self =? -1
    then set_hash self (_Py_HashBytes (take (Z.to_nat (ob_size self)) (value self)))
    else self in
  (hash self, self).

Inductive cmpop := Py_LT | Py_LE | Py_EQ | Py_NE | Py_GT | Py_GE.

(** A [char] is signed on the platforms CPython builds for by default. *)
Definition schar (b : byte) : Z := if b <? 128 then b else b - 256.

(** [for(;*left && *right && *left == *right; ++left, ++right);] on the
    memory from each pointer on; returns [( *left, *right )] after it. *)
Fixpoint cmp_scan (left right : list byte) : outcome (byte * byte) :=
  match left, right with
  | a :: left', b :: right' =>
      if negb (a =? 0) && negb (b =? 0) && (a =? b) then cmp_scan left' right'
      else Ok (a, b)
  | _, _ => Undefined
  end.

Definition cstring_richcompare (self : cstring) (other : PyObject) (op : cmpop)
  : outcome bool :=
  other ← _ensure_cstring other;
  '(l, r) ← cmp_scan (value self) (value other);
  Ok match op with
     | Py_EQ => l =? r
     | Py_NE => negb (l =? r)
     | Py_LT => schar l <? schar r
     | Py_GT => schar l >? schar r
     | Py_LE => schar l <=? schar r
     | Py_GE => schar l >=? schar r
     end.

(** ** Concatenation *)

Definition cstring_concat (left right : PyObject) : outcome cstring :=
  left ← _ensure_cstring left;
  right ← _ensure_cstring right;
  let size := cstring_len left + cstring_len right + 1 in
  let new := CSTRING_ALLOC size in
  v ← memcpy (value new) 0 (value left) 0 (ob_size left);
  v ← memcpy v (cstring_len left) (value right) 0 (ob_size right);
  Ok (set_value new v).

(** ** Character-class predicates *)

(** [while( *p ) { if(!pred( *p )) Py_RETURN_FALSE; ++p; } Py_RETURN_TRUE;]
    on the memory from [p] on: the body of [isalnum], [isalpha], [isdigit]
    and [isprintable]. *)
Fixpoint all_pred (pred : byte → bool) (l : list byte) : outcome bool :=
  match l with
  | [] => Undefined
  | c :: l' =>
      if c =? 0 then Ok true
      else if negb (pred c) then Ok false
      else all_pred pred l'
  end.

Definition cstring_isalnum (self : cstring) : outcome bool :=
  all_pred isalnum (value self).
Definition cstring_isalpha (self : cstring) : outcome bool :=
  all_pred isalpha (value self).
Definition cstring_isdigit (self : cstring) : outcome bool :=
  all_pred isdigit (value self).
Definition cstring_isprintable (self : cstring) : outcome bool :=
  all_pred isprint (value self).

(** The loop of [cstring_isspace]; [p] is the offset reached, and the
    result is [p != CSTRING_VALUE(self)]. *)
Fixpoint isspace_loop (l : list byte) (p : Z) : outcome bool :=
  match l with
  | [] => Undefined
  | c :: l' =>
      if c =? 0 then Ok (negb (p =? 0))
      else if negb (isspace c) then Ok false
      else isspace_loop l' (p + 1)
  end.

Definition cstring_isspace (self : cstring) : outcome bool :=
  isspace_loop (value self) 0.

(** The inner loop of [islower] / [isupper], after the first letter. *)
Fixpoint cased_rest (iscase : byte → bool) (l : list byte) : outcome bool :=
  match l with
  | [] => Undefined
  | c :: l' =>
      if c =? 0 then Ok true
      else if isalpha c && negb (iscase c) then Ok false
      else cased_rest iscase l'
  end.

(** The outer loop of [islower] / [isupper]. *)
Fixpoint cased_loop (iscase : byte → bool) (l : list byte) : outcome bool :=
  match l with
  | [] => Undefined
  | c :: l' =>
      if c =? 0 then Ok false
      else if isalpha c
           then (if negb (iscase c) then Ok false else cased_rest iscase l')
           else cased_loop iscase l'
  end.

Definition cstring_islower (self : cstring) : outcome bool :=
  cased_loop islower (value self).
Definition cstring_isupper (self : cstring) : outcome bool :=
  cased_loop isupper (value self).

(** ** The substring window *)

Definition _fix_index (i len : Z) : Z :=
  let result := i in
  let result := if result <? 0 then result + len else result in
  let result := if result <? 0 then 0 else result in
  let result := if result >? len then len else result in
  result.

(** [struct _substr_params]: [start] and [end] point into the receiver's
    buffer, [substr] is the pattern's own buffer. *)
Record _substr_params := SubstrParams {
  p_start : Z;
  p_end : Z;
  p_substr : list byte;
  p_substr_len : Z
}.

(** The tuple [args] is [(substr_obj[, start[, end]])]; the two integers
    are taken to fit a [Py_ssize_t]. *)
Definition _parse_substr_args (self : cstring) (substr_obj : PyObject)
    (start_arg end_arg : option Z) : outcome _substr_params :=
  let start := default 0 start_arg in
  let end_ := default PY_SSIZE_T_MAX end_arg in
  '(substr, substr_len) ← _obj_as_string_and_size substr_obj;
  let start := _fix_index start (cstring_len self) in
  let end_ := _fix_index end_ (cstring_len self) in
  Ok {| p_start := start; p_end := end_;
        p_substr := substr; p_substr_len := substr_len |}.

(** A C [long] incremented past [LONG_MAX], as two's complement hardware
    does it; the loop's control flow never reads the counter. *)
Definition wrap_long (z : Z) : Z := (z + 2 ^ 63) mod 2 ^ 64 - 2 ^ 63.

(** [while((p = strstr(p, params.substr)) != NULL) { ++result;
      p += params.substr_len; if(p >= params.end) break; }] *)
Fixpoint count_loop (fuel : nat) (buf : list byte) (params : _substr_params)
    (p : Z) (result : Z) : outcome Z :=
  match fuel with
  | O => OutOfFuel
  | S fuel =>
      p ← strstr buf p (p_substr params) 0;
      match p with
      | None => Ok result
      | Some p =>
          let result := wrap_long (result + 1) in
          let p := p + p_substr_len params in
          if p >=? p_end params then Ok result
          else count_loop fuel buf params p result
      end
  end.

Definition cstring_count (fuel : nat) (self : cstring) (substr_obj : PyObject)
    (start_arg end_arg : option Z) : outcome Z :=
  params ← _parse_substr_args self substr_obj start_arg end_arg;
  count_loop fuel (value self) params (p_start params) 0.

Definition _substr_params_str (buf : list byte) (params : _substr_params)
  : outcome (option Z) :=
  p ← strstr buf (p_start params) (p_substr params) 0;
  match p with
  | None => Ok None
  | Some p =>
      if p + p_substr_len params >? p_end params then Ok None else Ok (Some p)
  end.

Definition cstring_find (self : cstring) (substr_obj : PyObject)
    (start_arg end_arg : option Z) : outcome Z :=
  params ← _parse_substr_args self substr_obj start_arg end_arg;
  p ← _substr_params_str (value self) params;
  match p with
  | None => Ok (-1)
  | Some p => Ok (p - 0)
  end.

Definition cstring_index (self : cstring) (substr_obj : PyObject)
    (start_arg end_arg : option Z) : outcome Z :=
  params ← _parse_substr_args self substr_obj start_arg end_arg;
  p ← _substr_params_str (value self) params;
  match p with
  | None => Raise ValueError
  | Some p => Ok (p - 0)
  end.

(** ** Partition *)

(** The loop of [_strrstr] with [p = s + k]: it runs while [p > s]. *)
Fixpoint _strrstr_loop (s find : list byte) (k : nat) : outcome (option Z) :=
  match k with
  | O => Ok None
  | S k' =>
      n ← strlen find 0;
      matches ← memcmp (mem_from s (Z.of_nat k)) find (Z.to_nat n);
      if (matches : bool) then Ok (Some (Z.of_nat k)) else _strrstr_loop s find k'
  end.

(** [p] starts at [s + strlen(s) - 1]. *)
Definition _strrstr (s find : list byte) : outcome (option Z) :=
  n ← strlen s 0;
  _strrstr_loop s find (Z.to_nat (n - 1)).

(** The three new objects both partitions build around [mid]. *)
Definition partition_at (self : cstring) (search : list byte) (mid : Z)
  : outcome (objref * objref * objref) :=
  let left := 0 in
  n ← strlen search 0;
  let right := mid + n in
  a ← _cstring_new (value self) left (mid - left);
  b ← _cstring_new (value self) mid (right - mid);
  c ← _cstring_new (value self) right ((ob_size self - 1) - right);
  Ok (New a, New b, New c).

Definition cstring_partition (self : cstring) (arg : PyObject)
  : outcome (objref * objref * objref) :=
  arg ← _ensure_cstring arg;
  let search := value arg in
  mid ← strstr (value self) 0 search 0;
  match mid with
  | None => Ok (Same, Empty, Empty)
  | Some mid => partition_at self search mid
  end.

Definition cstring_rpartition (self : cstring) (arg : PyObject)
  : outcome (objref * objref * objref) :=
  arg ← _ensure_cstring arg;
  let search := value arg in
  mid ← _strrstr (value self) search;
  match mid with
  | None => Ok (Empty, Empty, Same)
  | Some mid => partition_at self search mid
  end.

(** ** Split *)

(** [while( *end && !strchr(seps, *end)) ++end;] on the memory from [end]
    on. *)
Fixpoint scan_field (seps : list byte) (l : list byte) (end_ : Z) : outcome Z :=
  match l with
  | [] => Undefined
  | c :: l' =>
      if negb (c =? 0) && negb (strchr seps c) then scan_field seps l' (end_ + 1)
      else Ok end_
  end.

(** [while( *skip && strchr(seps, *skip)) ++skip;] *)
Fixpoint skip_seps (seps : list byte) (l : list byte) (skip : Z) : outcome Z :=
  match l with
  | [] => Undefined
  | c :: l' =>
      if negb (c =? 0) && strchr seps c then skip_seps seps l' (skip + 1)
      else Ok skip
  end.

(** The [while( *start )] loop of [_cstring_split_on_chars]; [lst] is the
    Python list built so far. *)
Fixpoint split_chars_loop (fuel : nat) (self : cstring) (seps : list byte)
    (maxsplit : Z) (start : Z) (lst : list cstring) : outcome (list cstring) :=
  match fuel with
  | O => OutOfFuel
  | S fuel =>
      c ← rd (value self) start;
      if c =? 0 then Ok lst
      else
        end_ ← scan_field seps (mem_from (value self) start) start;
        new ← _cstring_new (value self) start (end_ - start);
        let lst := lst ++ [new] in
        let skip := end_ + 1 in
        skip ← skip_seps seps (mem_from (value self) skip) skip;
        let start := skip in
        if Z.of_nat (length lst) + 1 >? maxsplit
        then n ← strlen (value self) start;
             new ← _cstring_new (value self) start n;
             Ok (lst ++ [new])
        else split_chars_loop fuel self seps maxsplit start lst
  end.

Definition _cstring_split_on_chars (fuel : nat) (self : cstring)
    (seps : list byte) (maxsplit : Z) : outcome (list cstring) :=
  let maxsplit := if maxsplit <? 0 then PY_SSIZE_T_MAX else maxsplit in
  split_chars_loop fuel self seps maxsplit 0 [].

(** [PyList_Append(list, o)] where the caller keeps its reference to [o]:
    the list takes one of its own.  Where the source releases its reference
    right after the call ([PyList_Append(list, new); Py_DECREF(new);]) the
    loops write [lst ++ [new]]: the list's reference is then the only
    one. *)
Definition PyList_Append (lst : list cstring) (o : cstring) : list cstring :=
  lst ++ [set_refcnt o (ob_refcnt o + 1)].

(** The [for(;;)] loop of [_cstring_split_on_cstring]: returns [s] and the
    list at the [break]. *)
Fixpoint split_cstring_loop (fuel : nat) (self : cstring) (sep : list byte)
    (maxsplit : Z) (s : Z) (lst : list cstring) : outcome (Z * list cstring) :=
  match fuel with
  | O => OutOfFuel
  | S fuel =>
      e ← strstr (value self) s sep 0;
      match e with
      | None => Ok (s, lst)
      | Some e =>
          new ← _cstring_new (value self) s (e - s);
          let lst := lst ++ [new] in
          n ← strlen sep 0;
          let s := e + n in
          if Z.of_nat (length lst) + 1 >? maxsplit then Ok (s, lst)
          else split_cstring_loop fuel self sep maxsplit s lst
      end
  end.

(** After the loop the last field is appended and its reference is not
    released: the object is returned with the list's reference and the one
    from its creation. *)
Definition _cstring_split_on_cstring (fuel : nat) (self : cstring)
    (sepobj : PyObject) (maxsplit : Z) : outcome (list cstring) :=
  sepobj ← _ensure_cstring sepobj;
  let maxsplit := if maxsplit <? 0 then PY_SSIZE_T_MAX else maxsplit in
  let sep := value sepobj in
  '(s, lst) ← split_cstring_loop fuel self sep maxsplit 0 [];
  n ← strlen (value self) s;
  new ← _cstring_new (value self) s n;
  Ok (PyList_Append lst new).

(** [sepobj = None] is [Py_None], the default; [maxsplit] defaults to -1. *)
Definition cstring_split (fuel : nat) (self : cstring)
    (sepobj : option PyObject) (maxsplit : Z) : outcome (list cstring) :=
  match sepobj with
  | None => _cstring_split_on_chars fuel self WHITESPACE_CHARS maxsplit
  | Some sepobj => _cstring_split_on_cstring fuel self sepobj maxsplit
  end.

(** ** Strip *)

(** The character set as a C string, or [None] for the NULL the source
    returns with a type error set. *)
Definition _strip_chars_from_args (charsobj : option PyObject)
  : option (outcome (list byte)) :=
  match charsobj with
  | None => Some (Ok WHITESPACE_CHARS)
  | Some (PyUnicode u) => Some (str_at (u ++ [0]) 0)
  | Some _ => None
  end.

(** [while(strchr(chars, *start)) ++start;] on the memory from [start]. *)
Fixpoint strip_fwd (chars : list byte) (l : list byte) (start : Z) : outcome Z :=
  match l with
  | [] => Undefined
  | c :: l' => if strchr chars c then strip_fwd chars l' (start + 1) else Ok start
  end.

(** [while(strchr(chars, *end)) --end;] on the memory at [end] and before
    it, nearest byte first. *)
Fixpoint strip_bwd (chars : list byte) (l : list byte) (end_ : Z) : outcome Z :=
  match l with
  | [] => Undefined
  | c :: l' => if strchr chars c then strip_bwd chars l' (end_ - 1) else Ok end_
  end.

(** The memory at [buf + i] and before it, nearest byte first. *)
Definition mem_back (buf : list byte) (i : Z) : list byte :=
  if i <? 0 then [] else rev (take (Z.to_nat (i + 1)) buf).

(** [cstring_strip] does not test [chars] for NULL before [strchr]. *)
Definition cstring_strip (self : cstring) (charsobj : option PyObject)
  : outcome cstring :=
  match _strip_chars_from_args charsobj with
  | None => Undefined
  | Some chars =>
      chars ← chars;
      start ← strip_fwd chars (value self) 0;
      let end_ := (ob_size self - 1) - 1 in
      end_ ← strip_bwd chars (mem_back (value self) end_) end_;
      let newsize := end_ - start + 1 in
      _cstring_new (value self) start newsize
  end.

(** ** Repetition and case transforms *)

(** [for(i = 0; i < size - 1; i += cstring_len(self))
      memcpy(&new->value[i], CSTRING_VALUE(self), Py_SIZE(self));] *)
Fixpoint repeat_loop (fuel : nat) (self : cstring) (size i : Z) (v : list byte)
  : outcome (list byte) :=
  if i <? size - 1
  then match fuel with
       | O => OutOfFuel
       | S fuel =>
           v ← memcpy v i (value self) 0 (ob_size self);
           repeat_loop fuel self size (i + cstring_len self) v
       end
  else Ok v.

Definition cstring_repeat (fuel : nat) (self : PyObject) (count : Z) : outcome objref :=
  self ← _ensure_cstring self;
  if count <=? 0 then Ok Empty
  else
    let size := cstring_len self * count + 1 in
    let new := CSTRING_ALLOC size in
    v ← repeat_loop fuel self size 0 (value new);
    Ok (New (set_value new v)).

(** [while(( *d++ = f( *s++ )) != '\0');] with [src] the memory from [s]
    on and [d] an offset into [dst]. *)
Fixpoint map_through_nul (f : byte → byte) (src dst : list byte) (d : Z)
  : outcome (list byte) :=
  match src with
  | [] => Undefined
  | c :: src' =>
      dst ← wr dst d (f c);
      if f c =? 0 then Ok dst else map_through_nul f src' dst (d + 1)
  end.

Definition cstring_lower (self : cstring) : outcome cstring :=
  let new := CSTRING_ALLOC (ob_size self) in
  v ← map_through_nul tolower (value self) (value new) 0;
  Ok (set_value new v).

Definition cstring_upper (self : cstring) : outcome cstring :=
  let new := CSTRING_ALLOC (ob_size self) in
  v ← map_through_nul toupper (value self) (value new) 0;
  Ok (set_value new v).

(** The byte [swapcase] stores for [c]. *)
Definition swapped (c : byte) : byte :=
  if islower c then toupper c
  else if isupper c then tolower c
  else c.

(** [for(; *s; ++s, ++d) *d = swapped( *s );]: the terminator is the zero
    the allocator left. *)
Fixpoint swapcase_loop (src dst : list byte) (d : Z) : outcome (list byte) :=
  match src with
  | [] => Undefined
  | c :: src' =>
      if c =? 0 then Ok dst
      else dst ← wr dst d (swapped c); swapcase_loop src' dst (d + 1)
  end.

Definition cstring_swapcase (self : cstring) : outcome cstring :=
  let new := CSTRING_ALLOC (ob_size self) in
  v ← swapcase_loop (value self) (value new) 0;
  Ok (set_value new v).

(** ** Backward search *)

(** The loop of [_memrchr(s, c, n)] with [p = s + k - 1] before each test:
    it runs while [p >= s]. *)
Fixpoint _memrchr_loop (buf : list byte) (s : Z) (c : byte) (k : nat)
  : outcome (option Z) :=
  match k with
  | O => Ok None
  | S k' =>
      b ← rd buf (s + Z.of_nat k');
      if b =? c then Ok (Some (s + Z.of_nat k')) else _memrchr_loop buf s c k'
  end.

(** [_memrchr(buf + s, c, n)]: [p] starts at [s + n - 1].  A negative [n]
    (a huge [size_t]) wraps the start to the address [s + n - 1], below
    [s], and the loop does not run. *)
Definition _memrchr (buf : list byte) (s : Z) (c : byte) (n : Z) : outcome (option Z) :=
  _memrchr_loop buf s c (Z.to_nat n).

(** The [for(;;)] loop of [_substr_params_rstr]. *)
Fixpoint rstr_loop (fuel : nat) (buf : list byte) (params : _substr_params) (p : Z)
  : outcome (option Z) :=
  match fuel with
  | O => OutOfFuel
  | S fuel =>
      c ← rd (p_substr params) 0;
      p ← _memrchr buf (p_start params) c (p - p_start params);
      match p with
      | None => Ok None
      | Some p =>
          matches ← memcmp (mem_from buf p) (p_substr params)
                           (Z.to_nat (p_substr_len params));
          if (matches : bool) then Ok (Some p) else rstr_loop fuel buf params p
      end
  end.

Definition _substr_params_rstr (fuel : nat) (buf : list byte) (params : _substr_params)
  : outcome (option Z) :=
  let p := p_end params - p_substr_len params + 1 in
  rstr_loop fuel buf params p.

Definition cstring_rfind (fuel : nat) (self : cstring) (substr_obj : PyObject)
    (start_arg end_arg : option Z) : outcome Z :=
  params ← _parse_substr_args self substr_obj start_arg end_arg;
  p ← _substr_params_rstr fuel (value self) params;
  match p with
  | None => Ok (-1)
  | Some p => Ok (p - 0)
  end.

Definition cstring_rindex (fuel : nat) (self : cstring) (substr_obj : PyObject)
    (start_arg end_arg : option Z) : outcome Z :=
  params ← _parse_substr_args self substr_obj start_arg end_arg;
  p ← _substr_params_rstr fuel (value self) params;
  match p with
  | None => Raise ValueError
  | Some p => Ok (p - 0)
  end.

(** ** Prefix, suffix and containment *)

Definition cstring_startswith (self : cstring) (substr_obj : PyObject)
    (start_arg end_arg : option Z) : outcome bool :=
  params ← _parse_substr_args self substr_obj start_arg end_arg;
  if p_end params - p_start params <? p_substr_len params then Ok false
  else memcmp (mem_from (value self) (p_start params)) (p_substr params)
              (Z.to_nat (p_substr_len params)).

Definition cstring_endswith (self : cstring) (substr_obj : PyObject)
    (start_arg end_arg : option Z) : outcome bool :=
  params ← _parse_substr_args self substr_obj start_arg end_arg;
  if p_end params - p_start params <? p_substr_len params then Ok false
  else memcmp (mem_from (value self) (p_end params - p_substr_len params))
              (p_substr params) (Z.to_nat (p_substr_len params)).

(** [true] is the 1 and [false] the 0 the source returns; its -1 comes
    with the type error. *)
Definition cstring_contains (self : cstring) (arg : PyObject) : outcome bool :=
  arg ← _ensure_cstring arg;
  p ← strstr (value self) 0 (value arg) 0;
  Ok (bool_decide (is_Some p)).

(** ** Indexing and slicing *)

(** Returns the index where the source returns it, and raises where the
    source returns -1 with the error set. *)
Definition _ensure_valid_index (self : cstring) (i : Z) : outcome Z :=
  if (i >=? 0) && (i <? cstring_len self) then Ok i else Raise IndexError.

Definition cstring_item (self : cstring) (i : Z) : outcome cstring :=
  i ← _ensure_valid_index self i;
  _cstring_new (value self) i 1.

(** [index] is the integer [PyNumber_AsSsize_t] reads from the key. *)
Definition _cstring_subscript_index (self : cstring) (index : Z) : outcome cstring :=
  let i := index in
  let i := if i <? 0 then i + cstring_len self else i in
  cstring_item self i.

(** [for(i = 0; i < slicelen; ++i) { new->value[i] = *src; src += step; }]
    with [k] iterations left. *)
Fixpoint slice_loop (k : nat) (buf : list byte) (step : Z) (src : Z) (i : Z)
    (dst : list byte) : outcome (list byte) :=
  match k with
  | O => Ok dst
  | S k' =>
      b ← rd buf src;
      dst ← wr dst i b;
      slice_loop k' buf step (src + step) (i + 1) dst
  end.

(** [_cstring_subscript_slice] after [PySlice_Unpack] and
    [PySlice_AdjustIndices], which are CPython's: the adjusted [start], the
    [step] and the slice length they return are arguments. *)
Definition _cstring_subscript_slice (self : cstring) (start step slicelen : Z)
  : outcome cstring :=
  let new := CSTRING_ALLOC (slicelen + 1) in
  v ← slice_loop (Z.to_nat slicelen) (value self) step start 0 (value new);
  v ← wr v slicelen 0;
  Ok (set_value new v).

(** ** One-sided strip *)

Definition cstring_lstrip (self : cstring) (charsobj : option PyObject)
  : outcome cstring :=
  match _strip_chars_from_args charsobj with
  | None => Undefined
  | Some chars =>
      chars ← chars;
      start ← strip_fwd chars (value self) 0;
      let end_ := (ob_size self - 1) - 1 in
      let newsize := end_ - start + 1 in
      _cstring_new (value self) start newsize
  end.

Definition cstring_rstrip (self : cstring) (charsobj : option PyObject)
  : outcome cstring :=
  match _strip_chars_from_args charsobj with
  | None => Undefined
  | Some chars =>
      chars ← chars;
      let start := 0 in
      let end_ := (ob_size self - 1) - 1 in
      end_ ← strip_bwd chars (mem_back (value self) end_) end_;
      let newsize := end_ - start + 1 in
      _cstring_new (value self) start newsize
  end.
(** ** Objects in memory: in-place append and join

    Where ownership matters the objects live in a heap, a finite map from
    addresses to objects; an address that is not in the map is not (or no
    longer) allocated, and using it is [Undefined]. *)

Definition loc := positive.
Abbreviation heap := (gmap loc PyObject).

(** A heap-transforming computation with an outcome. *)
Definition M (A : Type) : Type := heap → heap * outcome A.

#[global] Instance M_ret : MRet M := λ A a h, (h, Ok a).
#[global] Instance M_bind : MBind M := λ A B f m h,
  match m h with
  | (h', Ok a) => f a h'
  | (h', Raise e) => (h', Raise e)
  | (h', Undefined) => (h', Undefined)
  | (h', OutOfFuel) => (h', OutOfFuel)
  end.

(** A computation that does not touch the heap. *)
Definition lift {A} (o : outcome A) : M A := λ h, (h, o).

(** Dereference a pointer. *)
Definition deref (l : loc) : M PyObject :=
  λ h, (h, from_option Ok Undefined (h !! l)).

(** Store through a pointer to a live object. *)
Definition store (l : loc) (o : PyObject) : M unit :=
  λ h, match h !! l with
       | Some _ => (<[l := o]> h, Ok tt)
       | None => (h, Undefined)
       end.

(** A new object at an address not in use. *)
Definition alloc (o : PyObject) : M loc :=
  λ h, let l := fresh (dom h) in (<[l := o]> h, Ok l).

(** Release the block at [l]. *)
Definition free (l : loc) : M unit := λ h, (delete l h, Ok tt).

(** Run [cleanup] when [m] returns NULL with an exception set: the
    [goto fail] of the source. *)
Definition or_fail {A} (m : M A) (cleanup : M unit) : M A :=
  λ h, match m h with
       | (h', Raise e) => (fst (cleanup h'), Raise e)
       | r => r
       end.

(** [Py_XDECREF(o)] on a [cstring]: [cstring_dealloc] frees it at zero. *)
Definition Py_XDECREF (o : option loc) : M unit :=
  match o with
  | None => mret tt
  | Some l =>
      obj ← deref l;
      match obj return M unit with
      | PyCstring c =>
          if ob_refcnt c - 1 =? 0 then free l
          else store l (PyCstring (set_refcnt c (ob_refcnt c - 1)))
      | _ => mret tt
      end
  end.

Section Realloc.

(** What the allocator leaves in the bytes a grown block gains: C leaves
    them indeterminate. *)
Variable junk : nat → byte.

(** The value storage of a block after [PyObject_Realloc] to [n] bytes of
    storage: the old bytes as far as they fit, then indeterminate ones. *)
Definition realloc_bytes (old : list byte) (n : nat) : list byte :=
  take n (old ++ (junk <$> seq 0 n)).

(** [_cstring_realloc(self, len)].  [PyObject_Realloc] may move the block:
    here it always does, so that the old pointer is dead afterwards.
    Allocation is taken to succeed. *)
Definition _cstring_realloc (self : loc) (len : Z) : M loc :=
  obj ← deref self;
  c ← lift (_ensure_cstring obj);
  if ob_refcnt c >? 1 then lift (Raise SystemError)
  else
    new ← alloc (PyCstring {| ob_refcnt := ob_refcnt c; ob_size := len + 1;
                              hash := -1;
                              value := realloc_bytes (value c) (Z.to_nat (len + 1)) |});
    _ ← free self;
    mret new.

(** [_concat_in_place(self, other)]; [None] is the NULL pointer. *)
Definition _concat_in_place (self other : option loc) : M loc :=
  match other with
  | None => lift (Raise TypeError)
  | Some other =>
      o ← deref other;
      o ← lift (_ensure_cstring o);
      match self with
      | None => c ← lift (_cstring_copy o); alloc (PyCstring c)
      | Some self =>
          s ← deref self;
          s ← lift (_ensure_cstring s);
          let origlen := cstring_len s in
          let newlen := origlen + cstring_len o in
          new ← _cstring_realloc self newlen;
          n ← deref new;
          n ← lift (_ensure_cstring n);
          o ← deref other;
          o ← lift (_ensure_cstring o);
          v ← lift (memcpy (value n) origlen (value o) 0 (cstring_len o));
          v ← lift (wr v (ob_size n - 1) 0);
          _ ← store new (PyCstring (set_value n v));
          mret new
      end
  end.

(** The [while((item = PyIter_Next(iter)) != NULL)] loop of [cstring_join]
    over the items the iterator yields.  The reference [PyIter_Next] gives
    for [item] is released again on both exits. *)
Fixpoint join_loop (self : loc) (items : list loc) (result : option loc)
  : M (option loc) :=
  match items with
  | [] => mret result
  | item :: items =>
      result ← match result with
               | Some _ =>
                   next ← or_fail (_concat_in_place result (Some self))
                                  (Py_XDECREF result);
                   mret (Some next)
               | None => mret None
               end;
      next ← or_fail (_concat_in_place result (Some item)) (Py_XDECREF result);
      join_loop self items (Some next)
  end.

(** [PyObject_GetIter(arg)] for an iterable [arg] that is not its own
    iterator (a list, a tuple): a new iterator object.  Its state is
    CPython's; what it yields is the list of items [join_loop] runs
    over. *)
Definition PyObject_GetIter : M loc := alloc PyOther.

(** [cstring_join(self, arg)] for an iterable [arg] that yields [items];
    [Ok None] is the NULL the source returns without an exception.  No
    path of the source releases [iter]. *)
Definition cstring_join (self : loc) (items : list loc) : M (option loc) :=
  iter ← PyObject_GetIter;
  join_loop self items None.

End Realloc.
(** ** Well-formed objects and what the claims speak of *)

(** The invariant of the data model: [ob_size] counts the terminator, the
    storage holds at least [ob_size] bytes, and the last of them is NUL. *)
Definition wf (c : cstring) : Prop :=
  1 ≤ ob_size c ≤ Z.of_nat (length (value c))
  ∧ value c !! Z.to_nat (ob_size c - 1) = Some 0.

(** No byte is the terminator. *)
Definition nul_free (bs : list byte) : Prop := Forall (λ b, b ≠ 0) bs.

(** The bytes a pattern argument stands for. *)
Definition arg_bytes (o : PyObject) : list byte :=
  match o with
  | PyUnicode u => u
  | PyBytes b => b
  | PyBuffer mem len => take (Z.to_nat len) mem
  | PyCstring c => content c
  | PyOther => []
  end.

(** A pattern argument the search family accepts, with a NUL right after
    its bytes: text and [bytes] always, a well-formed [cstring], and of the
    other buffers those that hold a NUL at [view.len]. *)
Definition arg_ok (o : PyObject) : Prop :=
  match o with
  | PyUnicode _ | PyBytes _ => True
  | PyBuffer mem len => 0 ≤ len ∧ mem !! Z.to_nat len = Some 0
  | PyCstring c => wf c
  | PyOther => False
  end.

(** A pattern argument whose bytes can be read up to its length, whatever
    follows them: the comparisons by [memcmp] need no more. *)
Definition arg_readable (o : PyObject) : Prop :=
  match o with
  | PyUnicode _ | PyBytes _ => True
  | PyBuffer mem len => 0 ≤ len ≤ Z.of_nat (length mem)
  | PyCstring c => wf c
  | PyOther => False
  end.

(** [needle] occurs in [hay] at offset [i]. *)
Definition occurs_at (hay needle : list byte) (i : Z) : Prop :=
  0 ≤ i ∧ take (length needle) (drop (Z.to_nat i) hay) = needle.

(** An occurrence that starts at or after [s] and ends at or before [e]. *)
Definition match_in_window (hay needle : list byte) (s e i : Z) : Prop :=
  s ≤ i ∧ i + Z.of_nat (length needle) ≤ e ∧ occurs_at hay needle i.

(** Spec wording of find / index on a window: both return the offset of
    the first match that lies in the window; without one, [find] returns
    -1 and [index] raises the value error. *)
Definition find_index_agree (self : cstring) (pat : PyObject)
    (start_arg end_arg : option Z) : Prop :=
  let hay := content self in
  let needle := arg_bytes pat in
  let s := _fix_index (default 0 start_arg) (cstring_len self) in
  let e := _fix_index (default PY_SSIZE_T_MAX end_arg) (cstring_len self) in
  (∀ i, match_in_window hay needle s e i →
        (∀ j, match_in_window hay needle s e j → i ≤ j) →
        cstring_find self pat start_arg end_arg = Ok i
        ∧ cstring_index self pat start_arg end_arg = Ok i)
  ∧ ((∀ i, ¬ match_in_window hay needle s e i) →
        cstring_find self pat start_arg end_arg = Ok (-1)
        ∧ cstring_index self pat start_arg end_arg = Raise ValueError).

(** The objects at [ls] in [h] are the cstrings [cs], in order. *)
Definition stored (h : heap) (ls : list loc) (cs : list cstring) : Prop :=
  Forall2 (λ l c, h !! l = Some (PyCstring c)) ls cs.

(** Spec wording of the split / join round trip: splitting [self] on the
    separator yields a list, and joining that list with the separator,
    wherever the objects live, yields a value with the bytes of [self]. *)
Definition split_join_reconstructs (self sep : cstring) (maxsplit : Z) : Prop :=
  ∃ fuel fields,
    cstring_split fuel self (Some (PyCstring sep)) maxsplit = Ok fields
    ∧ ∀ (junk : nat → byte) (h : heap) (sl : loc) (ls : list loc),
        h !! sl = Some (PyCstring sep) →
        stored h ls fields →
        ∃ h' r c,
          cstring_join junk sl ls h = (h', Ok (Some r))
          ∧ h' !! r = Some (PyCstring c)
          ∧ content c = content self.

(** The object an in-place append of [ac] to [tc] leaves behind. *)
Definition appended (tc ac : cstring) : cstring :=
  {| ob_refcnt := ob_refcnt tc;
     ob_size := cstring_len tc + cstring_len ac + 1;
     hash := -1;
     value := content tc ++ content ac ++ [0] |}.

(** The bytes a join appends to an accumulator: separator, item, ... *)
Definition joined_tail (sep : cstring) (cs : list cstring) : list byte :=
  concat ((λ c, content sep ++ content c) <$> cs).


(** The match in the window that starts last. *)
Definition last_match_in_window (hay needle : list byte) (s e i : Z) : Prop :=
  match_in_window hay needle s e i
  ∧ ∀ j, match_in_window hay needle s e j → j ≤ i.

(** A byte that is not in the separator set [seps]. *)
Definition nonsep (seps : list byte) (c : byte) : bool := negb (strchr seps c).
(** * Properties *)

(** ** Outcomes *)

Lemma bind_Ok {A B} (a : A) (f : A → outcome B) : (Ok a ≫= f) = f a.
Proof. reflexivity. Qed.

Lemma bind_Ok_inv {A B} (m : outcome A) (f : A → outcome B) (b : B) :
  m ≫= f = Ok b → ∃ a, m = Ok a ∧ f a = Ok b.
Proof. destruct m; simpl; try discriminate. eauto. Qed.

(** ** Evaluations of the constructor *)

Example new_abc : cstring_new (PyBytes (bytes "abc")) = Ok (New (mk (bytes "abc"))).
Proof. reflexivity. Qed.

Example new_empty : cstring_new (PyBytes []) = Ok Empty ∧ cstring_EMPTY = Ok (mk []).
Proof. split; reflexivity. Qed.

Lemma mk_wf bs : wf (mk bs).
Proof.
  unfold wf, mk; simpl. rewrite length_app; simpl. split; [lia|].
  apply list_lookup_middle. lia.
Qed.

Lemma mk_content bs : content (mk bs) = bs.
Proof.
  unfold content, cstring_len, mk; simpl.
  replace (Z.to_nat (Z.of_nat (length bs) + 1 - 1)) with (length bs) by lia.
  by rewrite take_app_length.
Qed.

Example constructor_reuses_cstring c : cstring_new (PyCstring c) = Ok Same.
Proof. reflexivity. Qed.
(** ** Hashing *)

(** Whatever its operands, the object [cstring_concat] returns carries the
    hash field 0 that the allocator's zero fill left there. *)
Lemma cstring_concat_hash_field left right new :
  cstring_concat left right = Ok new → hash new = 0.
Proof.
  unfold cstring_concat. intros H.
  apply bind_Ok_inv in H as (l & _ & H).
  apply bind_Ok_inv in H as (r & _ & H).
  apply bind_Ok_inv in H as (v & _ & H).
  apply bind_Ok_inv in H as (v' & _ & H).
  by injection H as <-.
Qed.

(** A hash query on an object whose field is not the sentinel returns
    the field as it is, without looking at the bytes. *)
Lemma cstring_hash_cached (_Py_HashBytes : list byte → Z) self :
  hash self ≠ -1 → cstring_hash _Py_HashBytes self = (hash self, self).
Proof.
  intros H. unfold cstring_hash.
  destruct (Z.eqb_spec (hash self) (-1)); [done | reflexivity].
Qed.

(** C1, at the failing input.  ["a" + "b"] and the constructed ["ab"] hold
    the same bytes and compare equal under [==], yet the concatenation
    comes back with the hash cache holding 0, which is neither the
    sentinel -1 nor a computed hash: a hash query on it answers 0 for every
    hash function, while the query on the constructed value answers the
    hash of its bytes (terminator included). *)
Theorem concat_result_hash_is_zero (_Py_HashBytes : list byte → Z) :
  ∃ ab : cstring,
    cstring_concat (PyCstring (mk (bytes "a"))) (PyCstring (mk (bytes "b"))) = Ok ab
    ∧ content ab = bytes "ab"
    ∧ cstring_richcompare ab (PyCstring (mk (bytes "ab"))) Py_EQ = Ok true
    ∧ hash ab = 0
    ∧ fst (cstring_hash _Py_HashBytes ab) = 0
    ∧ fst (cstring_hash _Py_HashBytes (mk (bytes "ab")))
      = _Py_HashBytes (bytes "ab" ++ [0]).
Proof. eexists. repeat split. Qed.

(** The other operations that fill an object from [CSTRING_ALLOC]
    themselves leave the same zero in the cache. *)
Example transforms_hash_is_zero :
  cstring_lower (mk (bytes "AbC")) = Ok (set_hash (mk (bytes "abc")) 0)
  ∧ cstring_upper (mk (bytes "AbC")) = Ok (set_hash (mk (bytes "ABC")) 0)
  ∧ cstring_swapcase (mk (bytes "AbC")) = Ok (set_hash (mk (bytes "aBc")) 0)
  ∧ cstring_repeat 2 (PyCstring (mk (bytes "ab"))) 2
    = Ok (New (set_hash (mk (bytes "abab")) 0)).
Proof. repeat split. Qed.

(** ** Character-class predicates *)

(** On a value without an embedded NUL the four plain predicates say
    whether every byte passes, the empty value included. *)
Lemma all_pred_spec pred bs rest :
  nul_free bs → all_pred pred (bs ++ 0 :: rest) = Ok (forallb pred bs).
Proof.
  induction 1 as [|b bs Hb _ IH]; simpl; [done|].
  destruct (Z.eqb_spec b 0); [done|].
  destruct (pred b); simpl; [apply IH | done].
Qed.

Lemma plain_predicates_spec bs :
  nul_free bs →
  cstring_isalnum (mk bs) = Ok (forallb isalnum bs)
  ∧ cstring_isalpha (mk bs) = Ok (forallb isalpha bs)
  ∧ cstring_isdigit (mk bs) = Ok (forallb isdigit bs)
  ∧ cstring_isprintable (mk bs) = Ok (forallb isprint bs).
Proof.
  intros H. unfold cstring_isalnum, cstring_isalpha, cstring_isdigit,
    cstring_isprintable, mk; simpl.
  by rewrite !all_pred_spec.
Qed.

(** C2, at the failing input.  On the empty value [isalnum], [isalpha],
    [isdigit] and [isprintable] fall through their loop and return true;
    only [isspace], [islower] and [isupper] return false there. *)
Theorem empty_value_predicates :
  cstring_isalnum (mk []) = Ok true
  ∧ cstring_isalpha (mk []) = Ok true
  ∧ cstring_isdigit (mk []) = Ok true
  ∧ cstring_isprintable (mk []) = Ok true
  ∧ cstring_isspace (mk []) = Ok false
  ∧ cstring_islower (mk []) = Ok false
  ∧ cstring_isupper (mk []) = Ok false.
Proof. repeat split. Qed.

(** ** Split on whitespace *)

(** C3, at the failing input.  With the default separator the value
    ["  a   b  "] splits into three fields, the first of them empty: the
    loop takes a field before it skips the leading run.  Four iterations
    of the outer loop are enough. *)
Theorem split_default_leading_run (fuel : nat) :
  cstring_split (4 + fuel) (mk (bytes "  a   b  ")) None (-1)
  = Ok [mk []; mk (bytes "a"); mk (bytes "b")].
Proof. reflexivity. Qed.

Example split_default_inner_run (fuel : nat) :
  cstring_split (3 + fuel) (mk (bytes "a   b  ")) None (-1)
  = Ok [mk (bytes "a"); mk (bytes "b")].
Proof. reflexivity. Qed.

(** ** Partition *)

Example partition_first :
  cstring_partition (mk (bytes "abcabc")) (PyCstring (mk (bytes "bc")))
  = Ok (New (mk (bytes "a")), New (mk (bytes "bc")), New (mk (bytes "abc"))).
Proof. reflexivity. Qed.

Example rpartition_last :
  cstring_rpartition (mk (bytes "abcabc")) (PyCstring (mk (bytes "bc")))
  = Ok (New (mk (bytes "abca")), New (mk (bytes "bc")), New (mk [])).
Proof. reflexivity. Qed.

Example partition_no_match :
  cstring_partition (mk (bytes "abc")) (PyCstring (mk (bytes "x")))
  = Ok (Same, Empty, Empty)
  ∧ cstring_rpartition (mk (bytes "abc")) (PyCstring (mk (bytes "x")))
    = Ok (Empty, Empty, Same).
Proof. split; reflexivity. Qed.

(** The backward scan of [_strrstr] stops before offset 0, whatever the
    strings. *)
Lemma _strrstr_loop_never_zero s find k :
  _strrstr_loop s find k ≠ Ok (Some 0).
Proof.
  induction k as [|k IH]; simpl; [done|].
  destruct (strlen find 0); simpl; try done.
  destruct (memcmp _ _ _) as [[]| | |]; simpl; done.
Qed.

(** C5, at the failing input.  The pattern ["a"] occurs in ["abc"], at
    offset 0 only: [partition] returns the triple around it, [rpartition]
    returns the triple of a failed search. *)
Theorem rpartition_misses_offset_zero :
  occurs_at (content (mk (bytes "abc"))) (bytes "a") 0
  ∧ cstring_partition (mk (bytes "abc")) (PyCstring (mk (bytes "a")))
    = Ok (New (mk []), New (mk (bytes "a")), New (mk (bytes "bc")))
  ∧ cstring_rpartition (mk (bytes "abc")) (PyCstring (mk (bytes "a")))
    = Ok (Empty, Empty, Same).
Proof. split; [split; [lia | reflexivity] | split; reflexivity]. Qed.

(** ** Strip *)

Example strip_both_ends :
  cstring_strip (mk (bytes "  ab ")) None = Ok (mk (bytes "ab"))
  ∧ cstring_strip (mk (bytes "ab")) None = Ok (mk (bytes "ab"))
  ∧ cstring_strip (mk (bytes "xxabx")) (Some (PyUnicode (bytes "x")))
    = Ok (mk (bytes "ab")).
Proof. repeat split. Qed.

(** The forward scan accepts the terminator as a member of every set, so
    it leaves the storage when nothing stops it before. *)
Lemma strip_fwd_all chars l start :
  Forall (λ c, strchr chars c = true) l → strip_fwd chars l start = Undefined.
Proof.
  intros H. revert start. induction H as [|c l Hc _ IH]; intros start; simpl; [done|].
  by rewrite Hc.
Qed.

(** On a constructed value made of whitespace only, the empty value
    included, [strip] reads past the storage. *)
Lemma strip_all_strippable bs :
  Forall (λ c, strchr WHITESPACE_CHARS c = true) bs →
  cstring_strip (mk bs) None = Undefined.
Proof.
  intros H. unfold cstring_strip; simpl.
  rewrite strip_fwd_all; [done|].
  apply Forall_app; split; [done|]. by repeat constructor.
Qed.

(** C8, at the failing input.  On a value that consists of strippable
    bytes only, and on the empty value, the forward scan of [strip] runs
    over the terminator and out of the object: no value comes back to
    strip a second time. *)
Theorem strip_all_whitespace_undefined :
  cstring_strip (mk (bytes "   ")) None = Undefined
  ∧ cstring_strip (mk []) None = Undefined
  ∧ cstring_strip (mk (bytes "xx")) (Some (PyUnicode (bytes "x"))) = Undefined.
Proof. repeat split. Qed.

(** ** Count *)

(** C9, at the failing input.  In ["ab"] with the window [start = 0],
    [end = 1] no occurrence of ["b"] lies inside the window, and [find]
    reports none; [count] reports one, since it counts a match before it
    compares the cursor with [end]. *)
Theorem count_counts_beyond_window (fuel : nat) :
  (∀ i, ¬ match_in_window (content (mk (bytes "ab"))) (bytes "b") 0 1 i)
  ∧ cstring_find (mk (bytes "ab")) (PyUnicode (bytes "b")) (Some 0) (Some 1) = Ok (-1)
  ∧ cstring_count (1 + fuel) (mk (bytes "ab")) (PyUnicode (bytes "b")) (Some 0) (Some 1)
    = Ok 1.
Proof.
  split; [|split; reflexivity].
  intros i (Hs & He & Hi & Hocc). simpl in He.
  assert (i = 0) as -> by lia. discriminate Hocc.
Qed.

Example count_non_overlapping (fuel : nat) :
  cstring_count (3 + fuel) (mk (bytes "aaaa")) (PyUnicode (bytes "aa")) None None = Ok 2.
Proof. reflexivity. Qed.

(** ** Termination *)

(** With an empty pattern the cursor of [count] does not move, and the
    loop is left only when the cursor is at or past [end]. *)
Lemma count_loop_empty_pattern fuel buf params p result :
  p_substr_len params = 0 →
  str_at (p_substr params) 0 = Ok [] →
  (∃ h, str_at buf p = Ok h) →
  p < p_end params →
  count_loop fuel buf params p result = OutOfFuel.
Proof.
  intros Hlen Hsub [h Hh] Hlt. revert result.
  induction fuel as [|fuel IH]; intros result; simpl; [done|].
  unfold strstr. rewrite Hh, Hsub; simpl.
  destruct h; simpl; rewrite Hlen, !Z.add_0_r;
    (destruct (Z.geb_spec p (p_end params)); [lia | apply IH]).
Qed.

(** C10, at the failing input.  [count] with the empty pattern on the
    value ["abc"] is still in its loop after any number of iterations. *)
Theorem count_empty_pattern_diverges (fuel : nat) :
  cstring_count fuel (mk (bytes "abc")) (PyUnicode []) None None = OutOfFuel.
Proof.
  unfold cstring_count; simpl.
  apply count_loop_empty_pattern; simpl; [done | done | by eexists | done].
Qed.

(** The explicit-separator split with an empty separator appends one empty
    field per iteration and never advances: it is still in its loop for
    every budget below [PY_SSIZE_T_MAX], the number of fields at which the
    [maxsplit] test would first stop it. *)
Lemma split_empty_separator_loop fuel lst :
  Z.of_nat (length lst) + Z.of_nat fuel < PY_SSIZE_T_MAX →
  split_cstring_loop fuel (mk (bytes "abc")) (value (mk [])) PY_SSIZE_T_MAX 0 lst
  = OutOfFuel.
Proof.
  revert lst. induction fuel as [|fuel IH]; intros lst Hlt; simpl; [done|].
  change (strstr _ 0 _ 0) with (Ok (Some 0) : outcome (option Z)); simpl.
  change (_cstring_new _ 0 (0 - 0)) with (Ok (mk [])); simpl.
  change (strlen [0; 0] 0) with (Ok 0 : outcome Z); simpl.
  rewrite length_app; simpl.
  destruct (Z.gtb_spec (Z.of_nat (length lst + 1) + 1) PY_SSIZE_T_MAX); [lia|].
  apply IH. rewrite length_app; simpl. lia.
Qed.

Lemma split_empty_separator_runs_on fuel :
  Z.of_nat fuel < PY_SSIZE_T_MAX →
  cstring_split fuel (mk (bytes "abc")) (Some (PyCstring (mk []))) (-1) = OutOfFuel.
Proof.
  intros H. unfold cstring_split, _cstring_split_on_cstring; simpl.
  rewrite split_empty_separator_loop; [done | simpl; lia].
Qed.
(** ** Building objects *)

Lemma _cstring_new_ok src i len :
  0 ≤ i → 0 ≤ len → i + len ≤ Z.of_nat (length src) →
  _cstring_new src i len = Ok (mk (take (Z.to_nat len) (drop (Z.to_nat i) src))).
Proof.
  intros Hi Hlen Hsrc. unfold _cstring_new, memcpy, wr, CSTRING_ALLOC; simpl.
  rewrite length_replicate.
  repeat match goal with
         | |- context [?a <? ?b] => destruct (Z.ltb_spec a b); [lia|]
         end; simpl.
  set (fld := take (Z.to_nat len) (drop (Z.to_nat i) src)).
  assert (length fld = Z.to_nat len) as Hfld.
  { unfold fld. rewrite length_take, length_drop. lia. }
  replace (Z.to_nat (len + 1 + 1)) with (Z.to_nat len + 2)%nat by lia.
  replace (Z.to_nat (0 + len)) with (Z.to_nat len) by lia.
  rewrite drop_replicate, Nat.add_sub'. simpl.
  rewrite length_app, Hfld; simpl.
  destruct (Z.leb_spec (Z.of_nat (Z.to_nat len + 2)) (len + 1 - 1)); [lia|]; simpl.
  unfold mk, set_value, set_hash; simpl. f_equal. f_equal; [lia|].
  replace (Z.to_nat (len + 1 - 1)) with (length fld + 0)%nat by lia.
  by rewrite insert_app_r.
Qed.

(** What the constructor builds from non-empty bytes. *)
Lemma cstring_new_mk bs : bs ≠ [] → cstring_new (PyBytes bs) = Ok (New (mk bs)).
Proof.
  intros Hne. unfold cstring_new; simpl.
  destruct (Z.eqb_spec (Z.of_nat (length bs)) 0) as [E|_].
  - destruct bs; [done | simpl in E; lia].
  - rewrite _cstring_new_ok by (rewrite ?length_app; simpl; lia).
    rewrite Nat2Z.id. change (Z.to_nat 0) with 0%nat.
    by rewrite drop_0, take_app_length.
Qed.

Lemma content_length c : wf c → length (content c) = Z.to_nat (cstring_len c).
Proof.
  intros [Hsz _]. unfold content, cstring_len in *. rewrite length_take. lia.
Qed.

(** The storage of a well-formed object: content, terminator, the rest. *)
Lemma wf_value c :
  wf c → value c = content c ++ 0 :: drop (Z.to_nat (ob_size c)) (value c).
Proof.
  intros [Hsz Hz]. unfold content, cstring_len.
  rewrite <- (take_drop (Z.to_nat (ob_size c - 1)) (value c)) at 1. f_equal.
  rewrite (drop_S _ 0 _ Hz). do 2 f_equal. lia.
Qed.

Lemma _cstring_copy_ok c : wf c → _cstring_copy c = Ok (mk (content c)).
Proof.
  intros Hwf. pose proof Hwf as [Hsz _]. unfold _cstring_copy.
  rewrite _cstring_new_ok by lia. by rewrite drop_0.
Qed.

(** ** In-place append *)

Section InPlace.

Variable junk : nat → byte.

Lemma realloc_bytes_length old n : length (realloc_bytes junk old n) = n.
Proof.
  unfold realloc_bytes. rewrite length_take, length_app, length_fmap, length_seq. lia.
Qed.

Lemma realloc_bytes_take old n k :
  (k ≤ n)%nat → (k ≤ length old)%nat →
  take k (realloc_bytes junk old n) = take k old.
Proof.
  intros Hn Hold. unfold realloc_bytes.
  rewrite take_take, Nat.min_l by done. by rewrite take_app_le.
Qed.

Lemma appended_wf tc ac : wf tc → wf ac → wf (appended tc ac).
Proof.
  intros Ht Ha. pose proof (content_length _ Ht). pose proof (content_length _ Ha).
  destruct Ht as [? _], Ha as [? _]. unfold wf, appended, cstring_len in *; simpl.
  rewrite !length_app; simpl. split; [lia|].
  rewrite app_assoc. apply list_lookup_middle. rewrite length_app. lia.
Qed.

Lemma appended_content tc ac :
  wf tc → wf ac → content (appended tc ac) = content tc ++ content ac.
Proof.
  intros Ht Ha. pose proof (content_length _ Ht). pose proof (content_length _ Ha).
  destruct Ht as [? _], Ha as [? _].
  unfold content at 1. unfold appended, cstring_len in *; simpl.
  rewrite app_assoc. apply take_app_length'. rewrite length_app. lia.
Qed.

Lemma concat_in_place_shared (h : heap) t a tc ac :
  h !! t = Some (PyCstring tc) → h !! a = Some (PyCstring ac) →
  1 < ob_refcnt tc →
  _concat_in_place junk (Some t) (Some a) h = (h, Raise SystemError).
Proof.
  intros Ht Ha Hrc.
  unfold _concat_in_place, _cstring_realloc, mbind, M_bind, deref, lift.
  rewrite Ha, Ht; simpl. rewrite ?Ht; simpl.
  by destruct (Z.gtb_spec (ob_refcnt tc) 1); [|lia].
Qed.

Lemma concat_in_place_absent (h : heap) a ac :
  h !! a = Some (PyCstring ac) → wf ac →
  _concat_in_place junk None (Some a) h
  = (<[fresh (dom h) := PyCstring (mk (content ac))]> h, Ok (fresh (dom h))).
Proof.
  intros Ha Hwf.
  unfold _concat_in_place, mbind, M_bind, deref, lift, alloc.
  rewrite Ha; simpl. by rewrite _cstring_copy_ok.
Qed.

Lemma concat_in_place_exclusive (h : heap) t a tc ac :
  h !! t = Some (PyCstring tc) → h !! a = Some (PyCstring ac) →
  t ≠ a → wf tc → wf ac → ob_refcnt tc ≤ 1 →
  _concat_in_place junk (Some t) (Some a) h
  = (<[fresh (dom h) := PyCstring (appended tc ac)]> (delete t h), Ok (fresh (dom h))).
Proof.
  intros Ht Ha Hne Hwt Hwa Hrc.
  pose proof (content_length _ Hwt) as Hlt. pose proof (content_length _ Hwa) as Hla.
  pose proof Hwt as [Hst _]. pose proof Hwa as [Hsa _].
  set (r := fresh (dom h)).
  assert (h !! r = None) as Hr by (apply not_elem_of_dom, is_fresh).
  assert (r ≠ t) as Hrt by (intros ->; by rewrite Ht in Hr).
  assert (r ≠ a) as Hra by (intros ->; by rewrite Ha in Hr).
  unfold _concat_in_place, _cstring_realloc, mbind, M_bind, deref, lift, alloc, free, store, mret, M_ret.
  rewrite Ha, Ht; simpl. rewrite ?Ht; simpl.
  destruct (Z.gtb_spec (ob_refcnt tc) 1); [lia|]. fold r.
  rewrite lookup_delete_ne, lookup_insert_eq by done; simpl.
  rewrite lookup_delete_ne, lookup_insert_ne, Ha by done; simpl.
  unfold memcpy, wr, cstring_len in *. rewrite realloc_bytes_length.
  repeat match goal with
         | |- context [?x <? ?y] => destruct (Z.ltb_spec x y); [lia|]
         end; simpl.
  rewrite !length_app, !length_take, !length_drop, !realloc_bytes_length.
  match goal with
  | |- context [?x <=? ?y] => destruct (Z.leb_spec x y); [lia|]
  end; simpl.
  f_equal. rewrite delete_insert_ne, insert_insert_eq by done. f_equal. f_equal.
  unfold appended, set_value, cstring_len; simpl. f_equal.
  rewrite realloc_bytes_take by lia. rewrite drop_0.
  change (take (Z.to_nat (ob_size tc - 1)) (value tc)) with (content tc).
  change (take (Z.to_nat (ob_size ac - 1)) (value ac)) with (content ac).
  replace (Z.to_nat (ob_size tc - 1 + (ob_size ac - 1) + 1 - 1))
    with (length (content tc) + (length (content ac) + 0))%nat by lia.
  rewrite insert_app_r, insert_app_r. do 2 f_equal.
  remember (drop _ (realloc_bytes _ _ _)) as tl eqn:Etl.
  assert (length tl = 1%nat) as Hl.
  { subst tl. rewrite length_drop, realloc_bytes_length. lia. }
  destruct tl as [|x [|]]; simpl in Hl; try lia. done.
Qed.

(** *** Join *)

Lemma join_loop_some sl item items r (h h1 h2 : heap) r1 r2 :
  _concat_in_place junk (Some r) (Some sl) h = (h1, Ok r1) →
  _concat_in_place junk (Some r1) (Some item) h1 = (h2, Ok r2) →
  join_loop junk sl (item :: items) (Some r) h = join_loop junk sl items (Some r2) h2.
Proof.
  intros E1 E2. cbn [join_loop].
  unfold mbind, M_bind, or_fail, mret, M_ret. by rewrite E1, E2.
Qed.

Lemma join_loop_none sl item items (h h1 : heap) r1 :
  _concat_in_place junk None (Some item) h = (h1, Ok r1) →
  join_loop junk sl (item :: items) None h = join_loop junk sl items (Some r1) h1.
Proof.
  intros E1. cbn [join_loop].
  unfold mbind, M_bind, or_fail, mret, M_ret. by rewrite E1.
Qed.

Lemma fresh_insert_None (h0 : heap) r (o : PyObject) :
  h0 !! fresh (dom (<[r := o]> h0)) = None.
Proof.
  apply not_elem_of_dom. intros Hin.
  apply (is_fresh (dom (<[r := o]> h0))).
  by apply (dom_insert_subseteq h0 r o).
Qed.

(** One append to an accumulator that is the only object the heap gained
    over [h0]. *)
Lemma concat_in_place_acc (h0 : heap) r acc a ac :
  h0 !! r = None → h0 !! a = Some (PyCstring ac) →
  wf acc → wf ac → ob_refcnt acc = 1 →
  ∃ r', h0 !! r' = None
    ∧ _concat_in_place junk (Some r) (Some a) (<[r := PyCstring acc]> h0)
      = (<[r' := PyCstring (appended acc ac)]> h0, Ok r').
Proof.
  intros Hr Ha Hwacc Hwac Hrc.
  assert (r ≠ a) as Hne by (intros ->; by rewrite Ha in Hr).
  exists (fresh (dom (<[r := PyCstring acc]> h0))). split; [apply fresh_insert_None|].
  rewrite (concat_in_place_exclusive (<[r := PyCstring acc]> h0) r a acc ac);
    [ | by rewrite lookup_insert_eq | by rewrite lookup_insert_ne
      | done | done | done | lia ].
  by rewrite delete_insert_eq, delete_id.
Qed.

Lemma join_loop_acc (h0 : heap) sl sep ls cs :
  h0 !! sl = Some (PyCstring sep) → wf sep →
  stored h0 ls cs → Forall wf cs →
  ∀ r acc, h0 !! r = None → wf acc → ob_refcnt acc = 1 → hash acc = -1 →
  ∃ r' acc',
    join_loop junk sl ls (Some r) (<[r := PyCstring acc]> h0)
    = (<[r' := PyCstring acc']> h0, Ok (Some r'))
    ∧ h0 !! r' = None ∧ wf acc' ∧ ob_refcnt acc' = 1 ∧ hash acc' = -1
    ∧ content acc' = content acc ++ joined_tail sep cs.
Proof.
  intros Hsl Hwsep Hst. induction Hst as [|l c ls cs Hl Hst IH]; intros Hwf r acc Hr Hwacc Hrc Hh.
  - exists r, acc. unfold joined_tail; simpl. by rewrite app_nil_r.
  - apply Forall_cons in Hwf as [Hwc Hwf].
    destruct (concat_in_place_acc h0 r acc sl sep) as (r1 & Hr1 & E1); try done.
    destruct (concat_in_place_acc h0 r1 (appended acc sep) l c) as (r2 & Hr2 & E2);
      try done; [by apply appended_wf|].
    destruct (IH Hwf r2 (appended (appended acc sep) c))
      as (r' & acc' & E & Hr' & Hw' & Hrc' & Hh' & Hc);
      try done; [by repeat apply appended_wf|].
    exists r', acc'. refine (conj _ (conj Hr' (conj Hw' (conj Hrc' (conj Hh' _))))).
    + by rewrite (join_loop_some _ _ _ _ _ _ _ _ _ E1 E2).
    + rewrite Hc, !appended_content by (try apply appended_wf; done).
      unfold joined_tail; simpl. by rewrite <- !app_assoc.
Qed.

(** An object at an address not in use does not disturb the stored ones. *)
Lemma stored_insert (h0 : heap) it (o : PyObject) ls cs :
  h0 !! it = None → stored h0 ls cs → stored (<[it := o]> h0) ls cs.
Proof.
  intros Hit Hst. eapply Forall2_impl; [exact Hst|]. intros l c Hl. simpl in *.
  rewrite lookup_insert_ne; [done|]. intros ->. by rewrite Hl in Hit.
Qed.

(** The call up to the loop: the iterator is a new object. *)
Lemma cstring_join_iter (h0 : heap) sl ls :
  cstring_join junk sl ls h0
  = join_loop junk sl ls None (<[fresh (dom h0) := PyOther]> h0).
Proof. reflexivity. Qed.

(** Joining a list whose first item is [c] and whose other items are [cs]:
    the heap gains the iterator and the result. *)
Lemma cstring_join_spec (h0 : heap) sl sep l ls c cs :
  h0 !! sl = Some (PyCstring sep) → wf sep →
  stored h0 (l :: ls) (c :: cs) → Forall wf (c :: cs) →
  ∃ it r' acc',
    cstring_join junk sl (l :: ls) h0
    = (<[r' := PyCstring acc']> (<[it := PyOther]> h0), Ok (Some r'))
    ∧ h0 !! it = None ∧ h0 !! r' = None ∧ r' ≠ it
    ∧ wf acc' ∧ ob_refcnt acc' = 1 ∧ hash acc' = -1
    ∧ content acc' = content c ++ joined_tail sep cs.
Proof.
  intros Hsl Hwsep Hst Hwf.
  assert (h0 !! fresh (dom h0) = None) as Hit by apply not_elem_of_dom, is_fresh.
  set (it := fresh (dom h0)) in *. set (h1 := <[it := PyOther]> h0).
  assert (h1 !! sl = Some (PyCstring sep)) as Hsl1.
  { unfold h1. rewrite lookup_insert_ne; [done|]. intros E. by rewrite E, Hsl in Hit. }
  pose proof (stored_insert h0 it PyOther _ _ Hit Hst) as Hst1. fold h1 in Hst1.
  apply Forall2_cons in Hst1 as [Hl Hst1]. apply Forall_cons in Hwf as [Hwc Hwf].
  assert (h1 !! fresh (dom h1) = None) as Hr by apply not_elem_of_dom, is_fresh.
  destruct (join_loop_acc h1 sl sep ls cs Hsl1 Hwsep Hst1 Hwf
              (fresh (dom h1)) (mk (content c)) Hr (mk_wf _) eq_refl eq_refl)
    as (r' & acc' & E & Hr' & Hw' & Hrc' & Hh' & Hc).
  assert (r' ≠ it) as Hne.
  { intros ->. unfold h1 in Hr'. by rewrite lookup_insert_eq in Hr'. }
  exists it, r', acc'. split; [|split; [done|split; [|split; [done|]]]].
  - rewrite cstring_join_iter. fold it h1.
    by rewrite (join_loop_none _ _ _ _ _ _ (concat_in_place_absent _ _ _ Hl Hwc)).
  - unfold h1 in Hr'. by rewrite lookup_insert_ne in Hr'.
  - split; [done|]. split; [done|]. split; [done|]. by rewrite Hc, mk_content.
Qed.

End InPlace.
(** ** Strings without an embedded NUL *)

Lemma c_str_app bs rest : nul_free bs → c_str (bs ++ 0 :: rest) = Ok bs.
Proof.
  induction 1 as [|b bs Hb _ IH]; simpl; [done|].
  destruct (Z.eqb_spec b 0); [done|]. by rewrite IH.
Qed.

Lemma str_at_content c s :
  wf c → nul_free (content c) → 0 ≤ s ≤ cstring_len c →
  str_at (value c) s = Ok (drop (Z.to_nat s) (content c)).
Proof.
  intros Hwf Hnf Hs. pose proof (content_length _ Hwf) as Hlen.
  unfold str_at, mem_from. destruct (Z.ltb_spec s 0); [lia|].
  rewrite (wf_value _ Hwf), drop_app_le by lia.
  apply c_str_app. by apply Forall_drop.
Qed.

Lemma strlen_content c s :
  wf c → nul_free (content c) → 0 ≤ s ≤ cstring_len c →
  strlen (value c) s = Ok (cstring_len c - s).
Proof.
  intros Hwf Hnf Hs. pose proof (content_length _ Hwf) as Hlen.
  unfold strlen. rewrite str_at_content by done; simpl.
  rewrite length_drop. f_equal. lia.
Qed.

Lemma c_str_no_raise l e : c_str l ≠ Raise e.
Proof.
  induction l as [|b l IH]; simpl; [done|].
  destruct (b =? 0); [done|]. by destruct (c_str l).
Qed.

(** The buffer and size a pattern argument is read through. *)
Lemma _obj_as_string_and_size_ok o :
  arg_ok o → nul_free (arg_bytes o) →
  ∃ buf, _obj_as_string_and_size o = Ok (buf, Z.of_nat (length (arg_bytes o)))
         ∧ str_at buf 0 = Ok (arg_bytes o).
Proof.
  intros Hok Hnf. destruct o as [u|b|mem len|c|]; simpl in *; try done.
  - eexists; split; [done|]. by apply c_str_app.
  - eexists; split; [done|]. by apply c_str_app.
  - destruct Hok as [Hlen Hz]. pose proof (lookup_lt_Some _ _ _ Hz) as Hlt.
    exists mem. split.
    + do 2 f_equal. rewrite length_take. lia.
    + unfold str_at, mem_from. simpl. rewrite drop_0.
      rewrite <- (take_drop (Z.to_nat len) mem) at 1.
      rewrite (drop_S _ 0 _ Hz). by apply c_str_app.
  - pose proof (content_length _ Hok) as Hlen. destruct (Hok) as [Hsz _].
    eexists; split; [f_equal; f_equal; unfold cstring_len in *; lia|].
    rewrite str_at_content by (unfold cstring_len; done || lia). by rewrite drop_0.
Qed.

(** ** Naive search *)

Lemma is_prefix_true n h : is_prefix n h = true ↔ take (length n) h = n.
Proof.
  revert h. induction n as [|a n IH]; intros [|b h]; simpl; try done.
  rewrite andb_true_iff, IH, Z.eqb_eq. split; [intros [-> ->]; done | intros [= -> ?]; done].
Qed.

Lemma is_prefix_app n h : is_prefix n h = true → h = n ++ drop (length n) h.
Proof.
  intros H%is_prefix_true. rewrite <- (take_drop (length n) h) at 1. by rewrite H.
Qed.

Lemma find_sub_Some n h k :
  find_sub n h = Some k →
  ∃ m : nat, k = Z.of_nat m ∧ (m ≤ length h)%nat
    ∧ is_prefix n (drop m h) = true
    ∧ ∀ j : nat, (j < m)%nat → is_prefix n (drop j h) = false.
Proof.
  revert k. induction h as [|b h IH]; intros k; simpl.
  - destruct (is_prefix n []) eqn:E; [|done]. intros [= <-].
    exists 0%nat. repeat split; [lia | done | lia].
  - destruct (is_prefix n (b :: h)) eqn:E.
    + intros [= <-]. exists 0%nat. repeat split; [lia | done | lia].
    + destruct (find_sub n h) as [k'|] eqn:F; [|done]. simpl. intros [= <-].
      destruct (IH k' eq_refl) as (m & -> & Hm & Hp & Hmin).
      exists (S m). repeat split; [lia | lia | done |].
      intros [|j] Hj; [done|]. apply Hmin. lia.
Qed.

Lemma find_sub_None n h :
  find_sub n h = None → ∀ j : nat, is_prefix n (drop j h) = false.
Proof.
  induction h as [|b h IH]; simpl.
  - destruct (is_prefix n []) eqn:E; [done|]. intros _ j. by rewrite drop_nil.
  - destruct (is_prefix n (b :: h)) eqn:E; [done|].
    destruct (find_sub n h) eqn:F; [done|]. intros _ [|j]; [done|]. by apply IH.
Qed.

Lemma _fix_index_range i len : 0 ≤ len → 0 ≤ _fix_index i len ≤ len.
Proof.
  intros Hlen. unfold _fix_index.
  repeat match goal with
         | |- context [?a <? ?b] => destruct (Z.ltb_spec a b)
         | |- context [?a >? ?b] => destruct (Z.gtb_spec a b)
         end; lia.
Qed.

Lemma strstr_content c s nbuf needle :
  wf c → nul_free (content c) → 0 ≤ s ≤ cstring_len c →
  str_at nbuf 0 = Ok needle →
  strstr (value c) s nbuf 0
  = Ok ((λ k, s + k) <$> find_sub needle (drop (Z.to_nat s) (content c))).
Proof.
  intros Hwf Hnf Hs Hn. unfold strstr. by rewrite str_at_content, Hn.
Qed.

Lemma occurs_at_prefix hay needle (s : Z) (j : nat) :
  0 ≤ s →
  occurs_at hay needle (s + Z.of_nat j)
  ↔ is_prefix needle (drop j (drop (Z.to_nat s) hay)) = true.
Proof.
  intros Hs. unfold occurs_at. rewrite is_prefix_true, drop_drop.
  replace (Z.to_nat (s + Z.of_nat j)) with (Z.to_nat s + j)%nat by lia.
  split; [by intros [_ ?] | split; [lia | done]].
Qed.

(** ** find and index *)

(** X8.  On every input the two calls take the same path: equal offsets, or -1
    against the value error, or the same failure. *)
Lemma find_index_dual self pat start_arg end_arg :
  match cstring_index self pat start_arg end_arg with
  | Ok p => 0 ≤ p ∧ cstring_find self pat start_arg end_arg = Ok p
  | Raise ValueError => cstring_find self pat start_arg end_arg = Ok (-1)
  | r => cstring_find self pat start_arg end_arg = r
  end.
Proof.
  unfold cstring_index, cstring_find.
  destruct (_parse_substr_args self pat start_arg end_arg) as [params|e| |] eqn:E;
    simpl; try done.
  - unfold _substr_params_str, strstr, str_at, mem_from.
    destruct (Z.ltb_spec (p_start params) 0) as [Hneg|Hpos]; simpl; [done|].
    destruct (c_str (drop _ (value self))) as [h|x| |] eqn:Eh; simpl;
      try done; try (by apply c_str_no_raise in Eh).
    destruct (c_str (drop _ (p_substr params))) as [n|x| |] eqn:En; simpl;
      try done; try (by apply c_str_no_raise in En).
    destruct (find_sub n h) as [k|] eqn:F; simpl; [|done].
    apply find_sub_Some in F as (m & -> & _).
    destruct (_ >? _); simpl; [done|]. split; [lia | done].
  - unfold _parse_substr_args in E.
    destruct pat; simpl in E; try done. by injection E as <-.
Qed.

(** C6, amended.  For a value without zero bytes and a pattern without zero
    bytes whose buffer holds a NUL right after the pattern ([arg_ok]: text,
    [bytes], a well-formed [cstring], or another buffer terminated at its
    length), and every start / end: when the window holds a match, [find]
    and [index] both return the offset of the first one; when it holds
    none, [find] returns -1 and [index] raises the value error.  (On
    arbitrary inputs the two still pair up, see [find_index_dual].) *)
Theorem find_index_window self pat start_arg end_arg :
  wf self → nul_free (content self) →
  arg_ok pat → nul_free (arg_bytes pat) →
  find_index_agree self pat start_arg end_arg.
Proof.
  intros Hwf Hnf Hok Hpnf.
  destruct (_obj_as_string_and_size_ok pat Hok Hpnf) as (buf & Ebuf & Estr).
  pose proof Hwf as [Hsz _].
  unfold find_index_agree, cstring_find, cstring_index, _parse_substr_args.
  rewrite Ebuf; simpl.
  set (s := _fix_index (default 0 start_arg) (cstring_len self)).
  set (e := _fix_index (default PY_SSIZE_T_MAX end_arg) (cstring_len self)).
  assert (0 ≤ s ≤ cstring_len self) as Hs by (apply _fix_index_range; unfold cstring_len; lia).
  unfold _substr_params_str; simpl.
  rewrite (strstr_content self s buf (arg_bytes pat)) by done.
  set (hay := content self) in *. set (needle := arg_bytes pat) in *.
  assert (∀ i, match_in_window hay needle s e i →
               ∃ j : nat, i = s + Z.of_nat j
                 ∧ is_prefix needle (drop j (drop (Z.to_nat s) hay)) = true) as Hwin.
  { intros i (Hsi & _ & Hocc). exists (Z.to_nat (i - s)).
    split; [lia|]. apply occurs_at_prefix; [lia|].
    by replace (s + Z.of_nat (Z.to_nat (i - s))) with i by lia. }
  destruct (find_sub needle (drop (Z.to_nat s) hay)) as [k|] eqn:F; simpl.
  - apply find_sub_Some in F as (m & -> & Hm & Hp & Hmin).
    assert (∀ i, match_in_window hay needle s e i → s + Z.of_nat m ≤ i) as Hfirst.
    { intros i Hi. destruct (Hwin i Hi) as (j & -> & Hj).
      destruct (decide (j < m)%nat) as [Hlt|]; [|lia].
      by rewrite (Hmin j Hlt) in Hj. }
    destruct (Z.gtb_spec (s + Z.of_nat m + Z.of_nat (length needle)) e) as [Hgt|Hle]; simpl.
    + split; [|done]. intros i Hi _. pose proof (Hfirst i Hi).
      destruct Hi as (_ & ? & _). lia.
    + assert (match_in_window hay needle s e (s + Z.of_nat m)) as Hmatch.
      { repeat split; try lia. by apply occurs_at_prefix; [lia|]. }
      split.
      * intros i Hi Hleast. pose proof (Hfirst i Hi). pose proof (Hleast _ Hmatch).
        replace i with (s + Z.of_nat m) by lia. by rewrite Z.sub_0_r.
      * intros Hnone. by destruct (Hnone _ Hmatch).
  - split; [|done]. intros i Hi _. destruct (Hwin i Hi) as (j & -> & Hj).
    by rewrite (find_sub_None _ _ F j) in Hj.
Qed.

(** ** Split on a separator, then join *)

(** The bytes of a joined list of byte strings. *)
Lemma joined_tail_mk sep fs :
  joined_tail sep (mk <$> fs) = concat ((λ f, content sep ++ f) <$> fs).
Proof.
  unfold joined_tail. rewrite <- list_fmap_compose. f_equal.
  apply list_fmap_ext. intros _ f _. simpl. by rewrite mk_content.
Qed.

(** Fields each followed by the separator, then the remainder, are the
    first field followed by separator-and-field for each later one. *)
Lemma fields_then_rest (sp : list byte) fs r :
  ∃ f rest, fs ++ [r] = f :: rest
    ∧ concat ((λ f, f ++ sp) <$> fs) ++ r = f ++ concat ((λ f, sp ++ f) <$> rest).
Proof.
  induction fs as [|f fs (g & rest & E & IH)]; simpl.
  - exists r, []. simpl. by rewrite app_nil_r.
  - exists f, (g :: rest). rewrite E. split; [done|].
    rewrite <- !app_assoc. f_equal. simpl. rewrite <- app_assoc. by f_equal.
Qed.

Section Split.

Variables self sep : cstring.
Hypothesis Hwf : wf self.
Hypothesis Hnf : nul_free (content self).
Hypothesis Hwsep : wf sep.
Hypothesis Hnsep : nul_free (content sep).
Hypothesis Hne : content sep ≠ [].

Lemma split_cstring_loop_spec maxsplit fuel s lst :
  0 ≤ s ≤ cstring_len self →
  cstring_len self - s < Z.of_nat fuel →
  ∃ s' fs,
    split_cstring_loop fuel self (value sep) maxsplit s lst = Ok (s', lst ++ (mk <$> fs))
    ∧ 0 ≤ s' ≤ cstring_len self
    ∧ drop (Z.to_nat s) (content self)
      = concat ((λ f, f ++ content sep) <$> fs) ++ drop (Z.to_nat s') (content self).
Proof.
  pose proof (content_length _ Hwf) as Hlen.
  pose proof (content_length _ Hwsep) as Hlsep.
  pose proof Hwf as [Hsz _]. pose proof Hwsep as [Hszs _].
  assert (0 < length (content sep))%nat as Hpos
    by (destruct (content sep); [done | simpl; lia]).
  revert s lst. induction fuel as [|fuel IH]; intros s lst Hs Hfuel; [lia|].
  cbn [split_cstring_loop].
  rewrite (strstr_content self s (value sep) (content sep)); try done.
  2: { rewrite str_at_content by (unfold cstring_len; done || lia). by rewrite drop_0. }
  rewrite bind_Ok.
  destruct (find_sub (content sep) (drop (Z.to_nat s) (content self))) as [k|] eqn:F;
    cbn [fmap option_fmap option_map].
  - apply find_sub_Some in F as (m & -> & Hm & Hp & _).
    rewrite length_drop in Hm.
    pose proof (is_prefix_app _ _ Hp) as Happ.
    assert (m + length (content sep) ≤ length (content self) - Z.to_nat s)%nat as Hfit.
    { apply (f_equal length) in Happ.
      rewrite length_app, !length_drop in Happ. lia. }
    rewrite _cstring_new_ok by (unfold cstring_len in *; lia).
    rewrite bind_Ok.
    rewrite (strlen_content sep 0) by (unfold cstring_len; done || lia).
    rewrite bind_Ok.
    set (f := take (Z.to_nat (s + Z.of_nat m - s)) (drop (Z.to_nat s) (value self))).
    assert (f = take m (drop (Z.to_nat s) (content self))) as Hf.
    { unfold f. replace (Z.to_nat (s + Z.of_nat m - s)) with m by lia.
      rewrite (wf_value _ Hwf), drop_app_le, take_app_le by (rewrite ?length_drop; lia).
      done. }
    set (s2 := s + Z.of_nat m + (cstring_len sep - 0)).
    assert (drop (Z.to_nat s) (content self)
            = (f ++ content sep) ++ drop (Z.to_nat s2) (content self)) as Hcut.
    { rewrite <- (take_drop m (drop (Z.to_nat s) (content self))) at 1.
      rewrite <- Hf, <- app_assoc. f_equal. rewrite Happ at 1. f_equal.
      rewrite !drop_drop. f_equal. unfold s2. lia. }
    destruct (_ >? _).
    + exists s2, [f]. simpl. rewrite app_nil_r. repeat split; try done; unfold s2; lia.
    + destruct (IH s2 (lst ++ [mk f])) as (s' & fs & E & Hs' & Hrest); try (unfold s2; lia).
      exists s', (f :: fs). rewrite E. simpl. rewrite <- app_assoc. simpl.
      repeat split; try done; try lia. by rewrite Hcut, Hrest, <- !app_assoc.
  - exists s, []. simpl. rewrite app_nil_r. repeat split; try done; lia.
Qed.

Lemma _cstring_split_on_cstring_spec maxsplit fuel :
  cstring_len self < Z.of_nat fuel →
  ∃ fields f rest,
    _cstring_split_on_cstring fuel self (PyCstring sep) maxsplit = Ok fields
    ∧ Forall wf fields
    ∧ content <$> fields = f :: rest
    ∧ content self = f ++ concat ((λ f, content sep ++ f) <$> rest).
Proof.
  intros Hfuel. pose proof (content_length _ Hwf) as Hlen. pose proof Hwf as [Hsz _].
  unfold _cstring_split_on_cstring. simpl.
  destruct (split_cstring_loop_spec
              (if maxsplit <? 0 then PY_SSIZE_T_MAX else maxsplit) fuel 0 [])
    as (s' & fs & E & Hs' & Hrest);
    [unfold cstring_len; lia | lia |].
  rewrite E. simpl.
  rewrite (strlen_content self s') by done. simpl.
  rewrite _cstring_new_ok by (unfold cstring_len in *; lia).
  simpl.
  set (r := take _ (drop _ (value self))).
  assert (r = drop (Z.to_nat s') (content self)) as Hr.
  { unfold r. rewrite (wf_value _ Hwf), drop_app_le by lia.
    rewrite take_app_length'; [done|]. rewrite length_drop. lia. }
  destruct (fields_then_rest (content sep) fs r) as (f & rest & Efs & Hcat).
  exists (PyList_Append (mk <$> fs) (mk r)), f, rest. split; [done|]. split; [|split].
  - unfold PyList_Append. apply Forall_app. split.
    + apply Forall_fmap, Forall_forall. intros x _. apply mk_wf.
    + constructor; [exact (mk_wf r) | constructor].
  - unfold PyList_Append. rewrite fmap_app, <- list_fmap_compose, <- Efs. f_equal.
    + rewrite <- (list_fmap_id fs) at 2. apply list_fmap_ext. intros _ x _. apply mk_content.
    + simpl. f_equal. exact (mk_content r).
  - rewrite drop_0 in Hrest. by rewrite Hrest, <- Hr.
Qed.

End Split.
(** ** The claims on ownership, search windows and round trips *)

(** C4.  An in-place append whose addition is a live [cstring]:
    - on a target with more than one reference it raises the
      bad-internal-call error ([SystemError]) and leaves every object,
      the target included, as it was;
    - on a target with exactly one reference, the addition being another
      object, it returns an object whose bytes are the target's followed
      by the addition's, well formed (terminated), with the hash cache
      reset to -1 and one reference; the addition is untouched;
    - with no target it returns a new object, at an address not in use
      before, that holds the addition's bytes, with cache -1 and one
      reference, and changes nothing else. *)
Theorem concat_in_place_ownership (junk : nat → byte) (h : heap) (a : loc) (ac : cstring) :
  h !! a = Some (PyCstring ac) → wf ac →
  (∀ t tc, h !! t = Some (PyCstring tc) → 1 < ob_refcnt tc →
     _concat_in_place junk (Some t) (Some a) h = (h, Raise SystemError))
  ∧ (∀ t tc, h !! t = Some (PyCstring tc) → wf tc → ob_refcnt tc = 1 → t ≠ a →
     ∃ h' r c,
       _concat_in_place junk (Some t) (Some a) h = (h', Ok r)
       ∧ h' !! r = Some (PyCstring c) ∧ wf c
       ∧ content c = content tc ++ content ac
       ∧ hash c = -1 ∧ ob_refcnt c = 1
       ∧ h' !! a = Some (PyCstring ac))
  ∧ (∃ h' r c,
       _concat_in_place junk None (Some a) h = (h', Ok r)
       ∧ h !! r = None ∧ h' = <[r := PyCstring c]> h
       ∧ wf c ∧ content c = content ac ∧ hash c = -1 ∧ ob_refcnt c = 1).
Proof.
  intros Ha Hwa. split; [|split].
  - intros t tc Ht Hrc. by apply (concat_in_place_shared junk h t a tc ac).
  - intros t tc Ht Hwt Hrc Hne.
    assert (h !! fresh (dom h) = None) as Hr by apply not_elem_of_dom, is_fresh.
    exists (<[fresh (dom h) := PyCstring (appended tc ac)]> (delete t h)),
           (fresh (dom h)), (appended tc ac).
    split; [apply concat_in_place_exclusive; (done || lia)|].
    split; [apply lookup_insert_eq|].
    split; [by apply appended_wf|].
    split; [by apply appended_content|].
    split; [done|]. split; [done|].
    rewrite lookup_insert_ne, lookup_delete_ne; [done | done |].
    intros E. by rewrite E, Ha in Hr.
  - assert (h !! fresh (dom h) = None) as Hr by apply not_elem_of_dom, is_fresh.
    exists (<[fresh (dom h) := PyCstring (mk (content ac))]> h),
           (fresh (dom h)), (mk (content ac)).
    split; [by apply concat_in_place_absent|].
    split; [done|]. split; [done|]. split; [apply mk_wf|].
    split; [apply mk_content|]. done.
Qed.

Lemma concat_in_place_ownership_witness :
  let h : heap := <[1%positive := PyCstring (mk (bytes ","))]>
                    (<[2%positive := PyCstring (mk (bytes "a"))]>
                       (<[3%positive := PyCstring (set_refcnt (mk (bytes "x")) 2)]> ∅)) in
  _concat_in_place (λ _, 7) (Some 3%positive) (Some 1%positive) h = (h, Raise SystemError)
  ∧ (∃ h' r c,
       _concat_in_place (λ _, 7) (Some 2%positive) (Some 1%positive) h = (h', Ok r)
       ∧ h' !! r = Some (PyCstring c) ∧ content c = bytes "a," ∧ hash c = -1)
  ∧ (∃ h' r c,
       _concat_in_place (λ _, 7) None (Some 1%positive) h = (h', Ok r)
       ∧ h !! r = None ∧ h' !! r = Some (PyCstring c) ∧ content c = bytes ",").
Proof.
  intros h.
  destruct (concat_in_place_ownership (λ _, 7) h 1%positive (mk (bytes ","))
              eq_refl (mk_wf _)) as (Hshared & Hexcl & (h3 & r3 & c3 & E3 & Hr3 & Hh3 & _ & Hc3 & _)).
  split; [|split].
  - apply (Hshared 3%positive (set_refcnt (mk (bytes "x")) 2) eq_refl). simpl. lia.
  - destruct (Hexcl 2%positive (mk (bytes "a")) eq_refl (mk_wf _) eq_refl)
      as (h2 & r2 & c2 & E2 & Hr2 & _ & Hc2 & Hh2 & _); [done|].
    exists h2, r2, c2. repeat split; done.
  - exists h3, r3, c3. repeat split; try done. rewrite Hh3. apply lookup_insert_eq.
Defined.

(** C6, the claim as stated fails.  The value with the bytes [\0 a] has a
    match of ["a"] at offset 1, inside the full window, and it is the only
    one; [find] answers -1: the search stops at the first zero byte. *)
Lemma find_stops_at_embedded_nul :
  ¬ find_index_agree (mk [0; 97]) (PyUnicode (bytes "a")) None None.
Proof.
  intros [Hfirst _].
  destruct (Hfirst 1) as [Hfind _]; [| |discriminate Hfind].
  - repeat split; by vm_compute.
  - intros j (Hj & _ & Hj0 & Hocc).
    destruct (decide (j = 0)) as [->|]; [discriminate Hocc | lia].
Qed.

(** The search reads the pattern as a C string and not up to its length:
    a pattern buffer that is not terminated at its length (a slice of a
    larger buffer) is searched for with the bytes that follow it.  ["a"],
    cut from ["abc"], occurs in ["xay"], yet [find] answers -1, [index]
    raises and [count] answers 0. *)
Example find_unterminated_pattern :
  let pat := PyBuffer (bytes "abc" ++ [0]) 1 in
  arg_bytes pat = bytes "a" ∧ ¬ arg_ok pat
  ∧ match_in_window (content (mk (bytes "xay"))) (arg_bytes pat) 0 3 1
  ∧ cstring_find (mk (bytes "xay")) pat None None = Ok (-1)
  ∧ cstring_index (mk (bytes "xay")) pat None None = Raise ValueError
  ∧ cstring_count 4 (mk (bytes "xay")) pat None None = Ok 0.
Proof.
  cbv zeta. split; [reflexivity|]. split; [by intros [_ ?]|].
  split; [|repeat split]. repeat split; by vm_compute.
Qed.

Lemma find_index_window_witness :
  wf (mk (bytes "abcabc")) ∧ nul_free (content (mk (bytes "abcabc")))
  ∧ arg_ok (PyUnicode (bytes "bc")) ∧ nul_free (arg_bytes (PyUnicode (bytes "bc")))
  ∧ find_index_agree (mk (bytes "abcabc")) (PyUnicode (bytes "bc")) (Some 2) None
  ∧ cstring_find (mk (bytes "abcabc")) (PyUnicode (bytes "bc")) (Some 2) None = Ok 4.
Proof.
  assert (nul_free (content (mk (bytes "abcabc")))) as H1
    by (repeat constructor; discriminate).
  assert (nul_free (arg_bytes (PyUnicode (bytes "bc")))) as H2
    by (repeat constructor; discriminate).
  split; [apply mk_wf|]. split; [exact H1|]. split; [exact I|]. split; [exact H2|].
  split; [|reflexivity].
  exact (find_index_window (mk (bytes "abcabc")) (PyUnicode (bytes "bc")) (Some 2) None
           (mk_wf _) H1 I H2).
Defined.

(** C7, the claim as stated fails.  The value with the bytes [a \0 b]
    splits on [","] into the single field ["a"], and the join of that list
    is ["a"]: the two bytes after the first zero are lost. *)
Lemma split_join_loses_bytes_after_nul :
  ¬ split_join_reconstructs (mk [97; 0; 98]) (mk (bytes ",")) (-1).
Proof.
  intros (fuel & fields & Hsplit & Hjoin).
  destruct fuel as [|fuel]; [done|].
  vm_compute in Hsplit. injection Hsplit as <-.
  destruct (Hjoin (λ _, 0)
              (<[1%positive := PyCstring (mk (bytes ","))]>
                 (<[2%positive := PyCstring (set_refcnt (mk (bytes "a")) 2)]> ∅))
              1%positive [2%positive]) as (h' & r & c & E & Hr & Hc).
  - reflexivity.
  - by repeat constructor.
  - vm_compute in E. injection E as <- <-.
    vm_compute in Hr. injection Hr as <-. discriminate Hc.
Qed.

(** C7, amended.  For a value without zero bytes and a non-empty separator
    without zero bytes, and every [maxsplit]: the explicit-separator split
    returns a list, and joining that list with the separator returns a
    value with exactly the bytes of the original. *)
Theorem split_join_round_trip self sep maxsplit :
  wf self → nul_free (content self) →
  wf sep → nul_free (content sep) → content sep ≠ [] →
  split_join_reconstructs self sep maxsplit.
Proof.
  intros Hwf Hnf Hwsep Hnsep Hne.
  exists (Z.to_nat (cstring_len self) + 1)%nat.
  destruct (_cstring_split_on_cstring_spec self sep Hwf Hnf Hwsep Hnsep Hne maxsplit
              (Z.to_nat (cstring_len self) + 1))
    as (fields & f & rest & E & Hwfs & Hfields & Hcat); [lia|].
  exists fields. split; [exact E|].
  intros junk h sl ls Hsl Hst.
  destruct fields as [|c cs]; [done|]. injection Hfields as Hc0 Hcs.
  destruct ls as [|l ls]; [by apply Forall2_nil_cons_inv in Hst|].
  destruct (cstring_join_spec junk h sl sep l ls c cs Hsl Hwsep Hst Hwfs)
    as (it & r & acc & Ej & _ & _ & _ & _ & _ & _ & Hc).
  exists (<[r := PyCstring acc]> (<[it := PyOther]> h)), r, acc.
  split; [exact Ej|]. split; [apply lookup_insert_eq|].
  rewrite Hc, Hc0, Hcat. f_equal. unfold joined_tail. rewrite <- Hcs.
  by rewrite <- list_fmap_compose.
Qed.

Lemma split_join_round_trip_witness :
  wf (mk (bytes "a,,b")) ∧ nul_free (content (mk (bytes "a,,b")))
  ∧ wf (mk (bytes ",")) ∧ nul_free (content (mk (bytes ",")))
  ∧ content (mk (bytes ",")) ≠ []
  ∧ split_join_reconstructs (mk (bytes "a,,b")) (mk (bytes ",")) (-1).
Proof.
  assert (nul_free (content (mk (bytes "a,,b")))) as H1
    by (repeat constructor; discriminate).
  assert (nul_free (content (mk (bytes ",")))) as H2
    by (repeat constructor; discriminate).
  assert (content (mk (bytes ",")) ≠ []) as H3 by discriminate.
  split; [apply mk_wf|]. split; [exact H1|]. split; [apply mk_wf|].
  split; [exact H2|]. split; [exact H3|].
  exact (split_join_round_trip _ _ (-1) (mk_wf _) H1 (mk_wf _) H2 H3).
Defined.

Example split_join_example :
  cstring_split 5 (mk (bytes "a,,b")) (Some (PyCstring (mk (bytes ",")))) (-1)
  = Ok [mk (bytes "a"); mk []; set_refcnt (mk (bytes "b")) 2].
Proof. reflexivity. Qed.

(** The loop of [count] with the empty pattern never ends on any
    well-formed, non-empty value without zero bytes. *)
Lemma count_empty_pattern_any fuel self :
  wf self → nul_free (content self) → content self ≠ [] →
  cstring_count fuel self (PyUnicode []) None None = OutOfFuel.
Proof.
  intros Hwf Hnf Hne. pose proof (content_length _ Hwf) as Hlen.
  assert (0 < cstring_len self) as Hpos.
  { destruct (content self); [done|]. simpl in Hlen. clear -Hlen. lia. }
  unfold cstring_count; simpl.
  assert (_fix_index 0 (cstring_len self) = 0) as ->.
  { clear -Hpos. unfold _fix_index.
    repeat match goal with
           | |- context [?a <? ?b] => destruct (Z.ltb_spec a b)
           | |- context [?a >? ?b] => destruct (Z.gtb_spec a b)
           end; lia. }
  apply count_loop_empty_pattern; simpl; [done | done | |].
  - eexists. apply str_at_content; [done | done | lia].
  - clear -Hpos. assert (0 < PY_SSIZE_T_MAX) as HM by done.
    change (default PY_SSIZE_T_MAX None) with PY_SSIZE_T_MAX.
    generalize dependent PY_SSIZE_T_MAX. intros M HM. unfold _fix_index.
    do 2 (destruct (Z.ltb_spec M 0) as [|_]; [lia|]).
    destruct (Z.gtb_spec M (cstring_len self)); lia.
Qed.
(** * Further properties of the module *)

(** ** Construction and concatenation *)

(** X1.  The constructor on each kind of argument: a [cstring] is handed back
    itself; an object that is neither text, nor a [cstring], nor has the
    buffer protocol raises the type error; text, [bytes] or another buffer
    of length 0 gives the singleton; a non-empty one gives a new well-formed
    object with exactly the bytes of the buffer up to its length (zero
    bytes included), the hash sentinel and one reference.  A buffer whose
    length lies outside its memory is read out of bounds. *)
Theorem cstring_new_cases (o : PyObject) :
  match o with
  | PyCstring _ => cstring_new o = Ok Same
  | PyOther => cstring_new o = Raise TypeError
  | PyUnicode bs | PyBytes bs =>
      if decide (bs = []) then cstring_new o = Ok Empty
      else ∃ c, cstring_new o = Ok (New c)
                ∧ content c = bs ∧ wf c ∧ hash c = -1 ∧ ob_refcnt c = 1
  | PyBuffer mem len =>
      if decide (len = 0) then cstring_new o = Ok Empty
      else if decide (0 < len ≤ Z.of_nat (length mem))
      then ∃ c, cstring_new o = Ok (New c)
                ∧ content c = take (Z.to_nat len) mem
                ∧ wf c ∧ hash c = -1 ∧ ob_refcnt c = 1
      else cstring_new o = Undefined
  end.
Proof.
  assert (∀ bs, bs ≠ [] →
            _cstring_new (bs ++ [0]) 0 (Z.of_nat (length bs)) = Ok (mk bs)) as Hnew.
  { intros bs _. rewrite _cstring_new_ok by (rewrite ?length_app; simpl; lia).
    rewrite Nat2Z.id. change (Z.to_nat 0) with 0%nat.
    by rewrite drop_0, take_app_length. }
  assert (∀ bs : list byte, bs ≠ [] → (Z.of_nat (length bs) =? 0) = false) as Hlen.
  { intros [|b bs] H; [done|]. apply Z.eqb_neq. simpl. lia. }
  destruct o as [bs|bs|mem len|c|]; try reflexivity.
  1, 2: destruct (decide (bs = [])) as [-> | Hne]; [reflexivity|].
  1, 2: exists (mk bs); unfold cstring_new; simpl; rewrite (Hlen _ Hne), (Hnew _ Hne).
  1, 2: repeat split; try apply mk_wf; apply mk_content.
  unfold cstring_new. cbn [_obj_as_string_and_size mbind outcome_bind].
  destruct (decide (len = 0)) as [-> | Hne]; [reflexivity|].
  destruct (Z.eqb_spec len 0); [done|].
  destruct (decide (0 < len ≤ Z.of_nat (length mem))) as [Hin|Hout].
  - exists (mk (take (Z.to_nat len) mem)).
    rewrite _cstring_new_ok by lia. change (Z.to_nat 0) with 0%nat. rewrite drop_0.
    repeat split; try apply mk_wf; apply mk_content.
  - unfold _cstring_new, memcpy. cbn [mbind outcome_bind].
    destruct (Z.ltb_spec len 0) as [Hneg|Hpos]; [done|].
    assert (Z.of_nat (length mem) < 0 + len) as Hshort by lia.
    apply Z.ltb_lt in Hshort. rewrite Hshort. by rewrite !orb_true_r.
Qed.

Lemma wf_take_size c : wf c → take (Z.to_nat (ob_size c)) (value c) = content c ++ [0].
Proof.
  intros Hwf. pose proof (content_length _ Hwf) as Hlen. destruct (Hwf) as [Hsz _].
  rewrite (wf_value _ Hwf) at 1.
  replace (Z.to_nat (ob_size c)) with (length (content c) + 1)%nat
    by (unfold cstring_len in Hlen; lia).
  by rewrite take_app_add.
Qed.

(** [memcpy] over the middle part of a destination. *)
Lemma memcpy_middle (dst a b c src : list byte) (d s n : Z) :
  dst = a ++ b ++ c → d = Z.of_nat (length a) →
  length b = Z.to_nat n → 0 ≤ n → 0 ≤ s → s + n ≤ Z.of_nat (length src) →
  memcpy dst d src s n
  = Ok (a ++ take (Z.to_nat n) (drop (Z.to_nat s) src) ++ c).
Proof.
  intros -> -> Hb Hn Hs Hsrc. unfold memcpy. rewrite !length_app.
  repeat match goal with
         | |- context [?x <? ?y] => destruct (Z.ltb_spec x y); [lia|]
         end; simpl.
  rewrite Nat2Z.id, take_app_length. do 2 f_equal.
  replace (Z.to_nat (Z.of_nat (length a) + n)) with (length a + length b)%nat by lia.
  by rewrite drop_app_add, drop_app_length.
Qed.

(** X2.  Concatenation of two well-formed values, whatever their bytes: a new
    object with one reference whose bytes are the left operand's followed
    by the right operand's, terminated; its hash field is the 0 of the
    allocation. *)
Theorem cstring_concat_bytes (left right : cstring) :
  wf left → wf right →
  cstring_concat (PyCstring left) (PyCstring right)
  = Ok (set_hash (mk (content left ++ content right)) 0).
Proof.
  intros Hl Hr.
  pose proof (content_length _ Hl) as Hll. pose proof (content_length _ Hr) as Hlr.
  pose proof (wf_take_size _ Hl) as Htl. pose proof (wf_take_size _ Hr) as Htr.
  destruct (Hl) as [Hsl _]. destruct (Hr) as [Hsr _].
  unfold cstring_len in *.
  set (cl := content left) in *. set (cr := content right) in *.
  unfold cstring_concat, CSTRING_ALLOC, cstring_len; simpl.
  replace (Z.to_nat (ob_size left - 1 + (ob_size right - 1) + 1 + 1))
    with (S (length cl) + (S (length cr)))%nat by lia.
  rewrite replicate_add.
  rewrite (memcpy_middle _ [] (replicate (S (length cl)) 0)
             (replicate (S (length cr)) 0) (value left) 0 0 (ob_size left))
    by (rewrite ?length_replicate; done || lia).
  simpl. change (Z.to_nat 0) with 0%nat. rewrite drop_0, Htl.
  replace (ob_size left - 1) with (Z.of_nat (length cl)) by lia.
  rewrite <- app_assoc.
  change (replicate (S (length cr)) 0) with (0 :: replicate (length cr) 0).
  replace ([0] ++ 0 :: replicate (length cr) 0)
    with (replicate (S (length cr)) 0 ++ [0]).
  2:{ rewrite <- replicate_S_end. done. }
  rewrite (memcpy_middle _ cl (replicate (S (length cr)) 0) [0] (value right)
             (Z.of_nat (length cl)) 0 (ob_size right))
    by (rewrite ?length_replicate; done || lia).
  simpl. change (Z.to_nat 0) with 0%nat. rewrite drop_0, Htr.
  unfold set_value, set_hash, mk; simpl. do 2 f_equal.
  - rewrite length_app. lia.
  - by rewrite <- !app_assoc.
Qed.

(** ** Comparison and hashing *)

Lemma cmp_scan_strings (p q x y : list byte) :
  nul_free p → nul_free q →
  ∃ a b, cmp_scan (p ++ 0 :: x) (q ++ 0 :: y) = Ok (a, b) ∧ (a = b ↔ p = q).
Proof.
  intros Hp. revert q. induction Hp as [|c p Hc Hp IH]; intros q Hq.
  - destruct Hq as [|d q Hd Hq]; simpl.
    + exists 0, 0. by split.
    + exists 0, d. split; [done|]. split; [by intros <- | done].
  - destruct Hq as [|d q Hd Hq]; simpl.
    + destruct (Z.eqb_spec c 0); [done|]. simpl.
      exists c, 0. split; [done|]. split; done.
    + destruct (Z.eqb_spec c 0); [done|]. destruct (Z.eqb_spec d 0); [done|]. simpl.
      destruct (Z.eqb_spec c d) as [->|Hne].
      * destruct (IH q Hq) as (a & b & E & Hab). exists a, b. split; [done|].
        rewrite Hab. split; [by intros -> | by intros [= ->]].
      * exists c, d. split; [done|]. split; [done | by intros [= ? _]].
Qed.

(** X3.  Equality looks at the bytes before the first zero byte of each
    operand and at nothing else: for operands whose storage starts with
    the strings [p] and [q], [==] says whether [p = q] and [!=] the
    opposite.  Values that differ only after an embedded zero byte
    compare equal. *)
Theorem richcompare_eq_up_to_nul (self other : cstring) (p q x y : list byte) :
  value self = p ++ 0 :: x → value other = q ++ 0 :: y →
  nul_free p → nul_free q →
  cstring_richcompare self (PyCstring other) Py_EQ = Ok (bool_decide (p = q))
  ∧ cstring_richcompare self (PyCstring other) Py_NE = Ok (negb (bool_decide (p = q))).
Proof.
  intros Es Eo Hp Hq. unfold cstring_richcompare; simpl. rewrite Es, Eo.
  destruct (cmp_scan_strings p q x y Hp Hq) as (a & b & -> & Hab); simpl.
  assert ((a =? b) = bool_decide (p = q)) as ->; [|done].
  destruct (Z.eqb_spec a b) as [E|E]; symmetry.
  - by apply bool_decide_eq_true, Hab.
  - apply bool_decide_eq_false. by rewrite <- Hab.
Qed.

Lemma richcompare_eq_up_to_nul_witness :
  nul_free (bytes "a")
  ∧ cstring_richcompare (mk (bytes "a" ++ 0 :: bytes "b"))
      (PyCstring (mk (bytes "a" ++ 0 :: bytes "c"))) Py_EQ = Ok true
  ∧ cstring_richcompare (mk (bytes "ab")) (PyCstring (mk (bytes "ac"))) Py_EQ = Ok false.
Proof.
  assert (nul_free (bytes "a")) as Ha by (repeat constructor; discriminate).
  assert (nul_free (bytes "ab")) as Hab by (repeat constructor; discriminate).
  assert (nul_free (bytes "ac")) as Hac by (repeat constructor; discriminate).
  split; [exact Ha|]. split.
  - exact (proj1 (richcompare_eq_up_to_nul
                    (mk (bytes "a" ++ 0 :: bytes "b")) (mk (bytes "a" ++ 0 :: bytes "c"))
                    (bytes "a") (bytes "a") (bytes "b" ++ [0; 0]) (bytes "c" ++ [0; 0])
                    eq_refl eq_refl Ha Ha)).
  - exact (proj1 (richcompare_eq_up_to_nul
                    (mk (bytes "ab")) (mk (bytes "ac"))
                    (bytes "ab") (bytes "ac") [0] [0] eq_refl eq_refl Hab Hac)).
Defined.

Lemma first_nul (l : list byte) :
  0 ∈ l → ∃ p x, l = p ++ 0 :: x ∧ nul_free p.
Proof.
  induction l as [|c l IH]; [by intros ?%elem_of_nil|].
  destruct (decide (c = 0)) as [->|Hc].
  - intros _. exists [], l. by split; [|constructor].
  - intros [?|Hin]%elem_of_cons; [done|].
    destruct (IH Hin) as (p & x & -> & Hp). exists (c :: p), x. split; [done|].
    by constructor.
Qed.

(** The storage of a well-formed object starts with a string. *)
Lemma wf_first_nul c : wf c → ∃ p x, value c = p ++ 0 :: x ∧ nul_free p.
Proof.
  intros [_ Hz]. apply first_nul. by apply list_elem_of_lookup_2 in Hz.
Qed.

(** X4.  On well-formed operands the six operators all return, and they answer
    from one pair of bytes: [!=] negates [==], [>=] negates [<], [<=]
    negates [>], and of [<], [==], [>] no two hold together. *)
Theorem richcompare_operators (self other : cstring) :
  wf self → wf other →
  ∃ eq lt gt,
    cstring_richcompare self (PyCstring other) Py_EQ = Ok eq
    ∧ cstring_richcompare self (PyCstring other) Py_LT = Ok lt
    ∧ cstring_richcompare self (PyCstring other) Py_GT = Ok gt
    ∧ cstring_richcompare self (PyCstring other) Py_NE = Ok (negb eq)
    ∧ cstring_richcompare self (PyCstring other) Py_GE = Ok (negb lt)
    ∧ cstring_richcompare self (PyCstring other) Py_LE = Ok (negb gt)
    ∧ lt && gt = false ∧ eq && lt = false ∧ eq && gt = false.
Proof.
  intros (p & x & Es & Hp)%wf_first_nul (q & y & Eo & Hq)%wf_first_nul.
  unfold cstring_richcompare; simpl. rewrite Es, Eo.
  destruct (cmp_scan_strings p q x y Hp Hq) as (l & r & E & _). rewrite E; simpl.
  eexists _, _, _. repeat (split; [reflexivity|]).
  rewrite !Z.geb_leb, !Z.gtb_ltb, !Z.leb_antisym. repeat (split; [reflexivity|]).
  destruct (Z.ltb_spec (schar l) (schar r)), (Z.ltb_spec (schar r) (schar l)),
    (Z.eqb_spec l r) as [E'|_]; simpl; repeat split; try done; try lia; subst; lia.
Qed.

Lemma richcompare_operators_witness :
  wf (mk (bytes "abc")) ∧ wf (mk (bytes "abd"))
  ∧ cstring_richcompare (mk (bytes "abc")) (PyCstring (mk (bytes "abd"))) Py_LT = Ok true
  ∧ cstring_richcompare (mk (bytes "abc")) (PyCstring (mk (bytes "abd"))) Py_GE = Ok false.
Proof.
  destruct (richcompare_operators (mk (bytes "abc")) (mk (bytes "abd")) (mk_wf _) (mk_wf _))
    as (eq & lt & gt & _ & Hlt & _ & _ & Hge & _).
  split; [apply mk_wf|]. split; [apply mk_wf|].
  assert (lt = true) as -> by (vm_compute in Hlt; by injection Hlt).
  by split.
Defined.

(** X5.  A hash query on a well-formed object with the sentinel in its cache
    returns the hash of its bytes and terminator and stores it; unless that
    hash is the sentinel itself, every later query returns the stored
    value and leaves the object alone. *)
Theorem cstring_hash_once (H H' : list byte → Z) (self : cstring) :
  wf self → hash self = -1 →
  let h := H (content self ++ [0]) in
  cstring_hash H self = (h, set_hash self h)
  ∧ (h ≠ -1 → cstring_hash H' (set_hash self h) = (h, set_hash self h)).
Proof.
  intros Hwf Hs h. unfold cstring_hash. rewrite Hs; simpl.
  rewrite (wf_take_size _ Hwf). split; [done|].
  intros Hne. by destruct (Z.eqb_spec h (-1)).
Qed.

Lemma cstring_hash_once_witness :
  let H := λ bs : list byte, Z.of_nat (length bs) in
  wf (mk (bytes "ab")) ∧ hash (mk (bytes "ab")) = -1
  ∧ cstring_hash H (mk (bytes "ab")) = (3, set_hash (mk (bytes "ab")) 3)
  ∧ cstring_hash (λ _, 0) (set_hash (mk (bytes "ab")) 3) = (3, set_hash (mk (bytes "ab")) 3).
Proof.
  intros H.
  destruct (cstring_hash_once H (λ _, 0) (mk (bytes "ab")) (mk_wf _) eq_refl) as [E1 E2].
  split; [apply mk_wf|]. split; [reflexivity|]. split; [exact E1|].
  apply E2. discriminate.
Defined.

Lemma cstring_concat_bytes_witness :
  wf (mk (bytes "ab")) ∧ wf (mk [0; 99])
  ∧ cstring_concat (PyCstring (mk (bytes "ab"))) (PyCstring (mk [0; 99]))
    = Ok (set_hash (mk [97; 98; 0; 99]) 0).
Proof.
  split; [apply mk_wf|]. split; [apply mk_wf|].
  exact (cstring_concat_bytes (mk (bytes "ab")) (mk [0; 99]) (mk_wf _) (mk_wf _)).
Defined.
(** ** Indexing and slicing *)

(** X6.  An integer subscript on a well-formed value of length [len]: an index
    in [-len, len) gives a new one-byte value holding the byte at that
    index counted from the front, or from the end when negative; every
    other index raises the index error. *)
Theorem subscript_index_bounds (self : cstring) (i : Z) :
  wf self →
  if decide (- cstring_len self ≤ i < cstring_len self)
  then ∃ b, content self !! Z.to_nat (i mod cstring_len self) = Some b
            ∧ _cstring_subscript_index self i = Ok (mk [b])
  else _cstring_subscript_index self i = Raise IndexError.
Proof.
  intros Hwf. pose proof (content_length _ Hwf) as Hlen. destruct (Hwf) as [Hsz _].
  unfold _cstring_subscript_index, cstring_item, _ensure_valid_index.
  set (len := cstring_len self) in *.
  set (j := if i <? 0 then i + len else i).
  destruct (decide (- len ≤ i < len)) as [Hin|Hout].
  - assert (0 ≤ j < len) as Hj by (unfold j; destruct (Z.ltb_spec i 0); lia).
    assert (i mod len = j) as ->.
    { unfold j. destruct (Z.ltb_spec i 0).
      - symmetry. apply (Z.mod_unique _ _ (-1)); lia.
      - apply Z.mod_small. lia. }
    destruct (Z.geb_spec j 0); [|lia]. destruct (Z.ltb_spec j len); [|lia]. simpl.
    destruct (lookup_lt_is_Some_2 (content self) (Z.to_nat j)) as [b Hb]; [lia|].
    exists b. split; [done|].
    rewrite _cstring_new_ok by (unfold len, cstring_len in *; lia).
    f_equal. f_equal. rewrite (wf_value _ Hwf), drop_app_le by lia.
    rewrite take_app_le by (rewrite length_drop; lia).
    change (Z.to_nat 1) with 1%nat.
    apply list_eq. intros [|k]; simpl.
    + by rewrite lookup_take_lt, lookup_drop, Nat.add_0_r by lia.
    + rewrite lookup_take_ge; [done | lia].
  - assert (¬ (0 ≤ j < len)) as Hj by (unfold j; destruct (Z.ltb_spec i 0); lia).
    destruct (Z.geb_spec j 0), (Z.ltb_spec j len); simpl; try done. lia.
Qed.

Lemma subscript_index_bounds_witness :
  wf (mk (bytes "abc"))
  ∧ _cstring_subscript_index (mk (bytes "abc")) (-1) = Ok (mk (bytes "c"))
  ∧ _cstring_subscript_index (mk (bytes "abc")) 3 = Raise IndexError.
Proof.
  split; [apply mk_wf|]. split.
  - destruct (subscript_index_bounds (mk (bytes "abc")) (-1) (mk_wf _)) as (b & Hb & E).
    vm_compute in Hb. injection Hb as <-. exact E.
  - exact (subscript_index_bounds (mk (bytes "abc")) 3 (mk_wf _)).
Defined.

Lemma slice_loop_spec (k : nat) (buf : list byte) (step src : Z) (done rest : list byte) :
  (k ≤ length rest)%nat →
  (∀ j : nat, (j < k)%nat →
     0 ≤ src + Z.of_nat j * step < Z.of_nat (length buf)) →
  ∃ new, length new = k
    ∧ (∀ j : nat, (j < k)%nat → new !! j = buf !! Z.to_nat (src + Z.of_nat j * step))
    ∧ slice_loop k buf step src (Z.of_nat (length done)) (done ++ rest)
      = Ok (done ++ new ++ drop k rest).
Proof.
  revert src done rest. induction k as [|k IH]; intros src done rest Hk Hin.
  - exists []. split; [done|]. split; [intros; lia|]. simpl. by rewrite drop_0.
  - destruct rest as [|r0 rest]; [simpl in Hk; lia|].
    pose proof (Hin 0%nat ltac:(lia)) as H0. rewrite Z.mul_0_l, Z.add_0_r in H0.
    destruct (lookup_lt_is_Some_2 buf (Z.to_nat src)) as [b Hb]; [lia|].
    destruct (IH (src + step) (done ++ [b]) rest) as (new & Hlen & Hnew & E).
    { simpl in Hk. lia. }
    { intros j Hj. pose proof (Hin (S j) ltac:(lia)). lia. }
    exists (b :: new). split; [simpl; lia|]. split.
    + intros [|j] Hj; simpl.
      * by rewrite Z.add_0_r.
      * rewrite Hnew by lia. f_equal. lia.
    + cbn [slice_loop]. unfold rd, wr.
      destruct (Z.ltb_spec src 0); [lia|]. rewrite Hb; simpl.
      destruct (Z.ltb_spec (Z.of_nat (length done)) 0); [lia|].
      rewrite length_app. simpl.
      destruct (Z.leb_spec (Z.of_nat (length done + S (length rest)))
                  (Z.of_nat (length done))); [lia|]. simpl.
      rewrite Nat2Z.id.
      replace (<[length done := b]> (done ++ r0 :: rest)) with ((done ++ [b]) ++ rest).
      2:{ rewrite <- app_assoc. simpl.
          pose proof (insert_app_r done (r0 :: rest) 0 b) as Hi.
          rewrite Nat.add_0_r in Hi. by rewrite Hi. }
      replace (Z.of_nat (length done) + 1) with (Z.of_nat (length (done ++ [b])))
        by (rewrite length_app; simpl; lia).
      rewrite E. by rewrite <- app_assoc.
Qed.

(** X7.  A slice, given the start, step and length that CPython's index
    adjustment hands over (every index it will read lies inside the
    value): a new object of that length whose byte [j] is the source byte
    at [start + j * step], terminated, with one reference; its hash field
    is the 0 of the allocation. *)
Theorem subscript_slice_bytes (self : cstring) (start step slicelen : Z) :
  wf self → 0 ≤ slicelen →
  (∀ j, 0 ≤ j < slicelen → 0 ≤ start + j * step < cstring_len self) →
  ∃ bs, _cstring_subscript_slice self start step slicelen = Ok (set_hash (mk bs) 0)
        ∧ Z.of_nat (length bs) = slicelen
        ∧ ∀ j : nat, Z.of_nat j < slicelen →
            bs !! j = content self !! Z.to_nat (start + Z.of_nat j * step).
Proof.
  intros Hwf Hlen Hin. pose proof (content_length _ Hwf) as Hcl. destruct (Hwf) as [Hsz _].
  unfold _cstring_subscript_slice, CSTRING_ALLOC; cbn [value].
  destruct (slice_loop_spec (Z.to_nat slicelen) (value self) step start []
              (replicate (Z.to_nat (slicelen + 1 + 1)) 0)) as (bs & Hbl & Hbs & E).
  { rewrite length_replicate. lia. }
  { intros j Hj. pose proof (Hin (Z.of_nat j) ltac:(lia)). unfold cstring_len in *. lia. }
  change (Z.of_nat (length [])) with 0 in E. rewrite !app_nil_l in E.
  rewrite E; simpl.
  rewrite drop_replicate.
  replace (Z.to_nat (slicelen + 1 + 1) - Z.to_nat slicelen)%nat with 2%nat by lia.
  unfold wr. rewrite length_app; simpl.
  destruct (Z.ltb_spec slicelen 0); [lia|].
  destruct (Z.leb_spec (Z.of_nat (length bs + 2)) slicelen); [lia|]. simpl.
  exists bs. split; [|split; [lia|]].
  - unfold set_value, set_hash, mk; simpl. do 2 f_equal; [lia|].
    replace (Z.to_nat slicelen) with (length bs) by lia.
    pose proof (insert_app_r bs [0; 0] 0 0) as Hi.
    rewrite Nat.add_0_r in Hi. by rewrite Hi.
  - intros j Hj. rewrite Hbs by lia.
    pose proof (Hin (Z.of_nat j) ltac:(lia)).
    unfold content. rewrite lookup_take_lt; [done | lia].
Qed.

Lemma subscript_slice_bytes_witness :
  wf (mk (bytes "hello")) ∧ 0 ≤ 5
  ∧ (∀ j, 0 ≤ j < 5 → 0 ≤ 4 + j * -1 < cstring_len (mk (bytes "hello")))
  ∧ ∃ bs, _cstring_subscript_slice (mk (bytes "hello")) 4 (-1) 5 = Ok (set_hash (mk bs) 0)
          ∧ Z.of_nat (length bs) = 5
          ∧ ∀ j : nat, Z.of_nat j < 5 →
              bs !! j = content (mk (bytes "hello")) !! Z.to_nat (4 + Z.of_nat j * -1).
Proof.
  assert (∀ j, 0 ≤ j < 5 → 0 ≤ 4 + j * -1 < cstring_len (mk (bytes "hello"))) as Hin.
  { intros j Hj. change (cstring_len (mk (bytes "hello"))) with 5. lia. }
  split; [apply mk_wf|]. split; [lia|]. split; [exact Hin|].
  exact (subscript_slice_bytes (mk (bytes "hello")) 4 (-1) 5 (mk_wf _) ltac:(lia) Hin).
Defined.
(** ** Backward search *)

Lemma memcmp_take (a b : list byte) (n : nat) :
  (n ≤ length a)%nat → (n ≤ length b)%nat →
  memcmp a b n = Ok (bool_decide (take n a = take n b)).
Proof.
  revert a b. induction n as [|n IH]; intros a b Ha Hb.
  { by destruct a. }
  destruct a as [|x a]; [simpl in Ha; lia|]. destruct b as [|y b]; [simpl in Hb; lia|].
  simpl in *. destruct (Z.eqb_spec x y) as [->|Hxy].
  - rewrite IH by lia. f_equal. apply bool_decide_ext. split; [by intros ->|by intros [= ->]].
  - f_equal. symmetry. apply bool_decide_eq_false. by intros [= ? _].
Qed.

Lemma _memrchr_loop_spec (buf : list byte) (s : Z) (c : byte) (k : nat) :
  0 ≤ s → s + Z.of_nat k ≤ Z.of_nat (length buf) →
  match _memrchr_loop buf s c k with
  | Ok (Some q) => s ≤ q < s + Z.of_nat k ∧ buf !! Z.to_nat q = Some c
                   ∧ ∀ j, q < j < s + Z.of_nat k → buf !! Z.to_nat j ≠ Some c
  | Ok None => ∀ j, s ≤ j < s + Z.of_nat k → buf !! Z.to_nat j ≠ Some c
  | _ => False
  end.
Proof.
  intros Hs. induction k as [|k IH]; intros Hk; simpl; [lia|].
  unfold rd. destruct (Z.ltb_spec (s + Z.of_nat k) 0); [lia|].
  destruct (lookup_lt_is_Some_2 buf (Z.to_nat (s + Z.of_nat k))) as [b Hb]; [lia|].
  rewrite Hb; simpl. destruct (Z.eqb_spec b c) as [->|Hbc].
  - split; [lia|]. split; [done|]. intros j Hj. lia.
  - assert (∀ j, j = s + Z.of_nat k → buf !! Z.to_nat j ≠ Some c) as Hhere.
    { intros j ->. rewrite Hb. by intros [= ?]. }
    specialize (IH ltac:(lia)).
    destruct (_memrchr_loop buf s c k) as [[q|]| | |]; try done.
    + destruct IH as (Hq & Hqc & Hafter). split; [lia|]. split; [done|].
      intros j Hj. destruct (decide (j = s + Z.of_nat k)); [by apply Hhere|].
      apply Hafter. lia.
    + intros j Hj. destruct (decide (j = s + Z.of_nat k)); [by apply Hhere|].
      apply IH. lia.
Qed.

Lemma take_head_lookup (needle : list byte) (c : byte) rest (buf : list byte) (j : nat) :
  needle = c :: rest → take (length needle) (drop j buf) = needle → buf !! j = Some c.
Proof.
  intros -> H. simpl in H.
  pose proof (lookup_drop buf j 0) as Hd. rewrite Nat.add_0_r in Hd. rewrite <- Hd.
  destruct (drop j buf); [done|]. simpl in *. by injection H as ->.
Qed.

Lemma rstr_loop_spec (fuel : nat) (buf : list byte) (params : _substr_params)
    (needle : list byte) (p : Z) :
  needle ≠ [] →
  p_substr_len params = Z.of_nat (length needle) →
  take (length needle) (p_substr params) = needle →
  0 ≤ p_start params →
  p + p_substr_len params - 1 ≤ Z.of_nat (length buf) →
  Z.max 0 (p - p_start params) < Z.of_nat fuel →
  match rstr_loop fuel buf params p with
  | Ok (Some q) => p_start params ≤ q < p
                   ∧ take (length needle) (drop (Z.to_nat q) buf) = needle
                   ∧ ∀ j, q < j < p → take (length needle) (drop (Z.to_nat j) buf) ≠ needle
  | Ok None => ∀ j, p_start params ≤ j < p →
                    take (length needle) (drop (Z.to_nat j) buf) ≠ needle
  | _ => False
  end.
Proof.
  intros Hne Hlen Hpat Hs. destruct needle as [|c rest] eqn:En; [done|]. rewrite <- En in *.
  assert (1 ≤ Z.of_nat (length needle)) as Hpos by (rewrite En; simpl; lia).
  assert (∃ prest, p_substr params = c :: prest) as [prest Hp].
  { destruct (p_substr params) as [|c' prest]; [by rewrite En in Hpat|].
    rewrite En in Hpat. simpl in Hpat. injection Hpat as -> _. by eexists. }
  assert (length needle ≤ length (p_substr params))%nat as Hplen.
  { rewrite <- Hpat at 1. rewrite length_take. lia. }
  revert p. induction fuel as [|fuel IH]; intros p Hp' Hfuel.
  { lia. }
  cbn [rstr_loop]. rewrite Hp. change (rd (c :: prest) 0) with (Ok c : outcome byte).
  rewrite <- Hp. cbn [mbind outcome_bind]. unfold _memrchr.
  destruct (Z.le_gt_cases p (p_start params)) as [Hle|Hgt].
  { replace (Z.to_nat (p - p_start params)) with 0%nat by lia. simpl. intros j Hj. lia. }
  pose proof (_memrchr_loop_spec buf (p_start params) c (Z.to_nat (p - p_start params))
                Hs ltac:(lia)) as Hm.
  replace (p_start params + Z.of_nat (Z.to_nat (p - p_start params))) with p in Hm by lia.
  assert (∀ j, 0 ≤ j → buf !! Z.to_nat j ≠ Some c →
               take (length needle) (drop (Z.to_nat j) buf) ≠ needle) as Hnot.
  { intros j Hj Hjc Heq. apply Hjc.
    exact (take_head_lookup needle c rest buf (Z.to_nat j) En Heq). }
  destruct (_memrchr_loop buf (p_start params) c (Z.to_nat (p - p_start params)))
    as [[q|]| | |]; try done; cbn [mbind outcome_bind].
  - destruct Hm as (Hq & Hqc & Hafter).
    unfold mem_from. destruct (Z.ltb_spec q 0); [lia|].
    rewrite memcmp_take; [|rewrite length_drop; lia | lia].
    rewrite Hlen, Nat2Z.id, Hpat.
    destruct (decide (take (length needle) (drop (Z.to_nat q) buf) = needle)) as [Heq|Hneq].
    + rewrite bool_decide_eq_true_2 by done. split; [lia|]. split; [done|].
      intros j Hj. apply Hnot; [lia|]. by apply Hafter.
    + rewrite bool_decide_eq_false_2 by done.
      specialize (IH q ltac:(lia) ltac:(lia)).
      destruct (rstr_loop fuel buf params q) as [[q'|]| | |]; try done.
      * destruct IH as (Hq' & Hq'm & Hbetween). split; [lia|]. split; [done|].
        intros j Hj. destruct (Z.lt_trichotomy j q) as [?|[->|?]].
        -- apply Hbetween. lia.
        -- done.
        -- apply Hnot; [lia|]. apply Hafter. lia.
      * intros j Hj. destruct (Z.lt_trichotomy j q) as [?|[->|?]].
        -- apply IH. lia.
        -- done.
        -- apply Hnot; [lia|]. apply Hafter. lia.
  - intros j Hj. apply Hnot; [lia|]. by apply Hm.
Qed.

(** The buffer and size a pattern argument is read through, whatever bytes
    it holds. *)
Lemma _obj_as_string_and_size_buf (o : PyObject) :
  arg_readable o →
  ∃ buf, _obj_as_string_and_size o = Ok (buf, Z.of_nat (length (arg_bytes o)))
         ∧ take (length (arg_bytes o)) buf = arg_bytes o.
Proof.
  intros Hok. destruct o as [u|b|mem len|c|]; simpl in *; try done.
  - eexists; split; [done|]. by rewrite take_app_length.
  - eexists; split; [done|]. by rewrite take_app_length.
  - exists mem. split.
    + do 2 f_equal. rewrite length_take. lia.
    + rewrite length_take. f_equal. lia.
  - pose proof (content_length _ Hok) as Hlen. destruct (Hok) as [Hsz _].
    exists (value c). split.
    + do 2 f_equal. unfold cstring_len in Hlen. lia.
    + rewrite Hlen. done.
Qed.

(** Inside the content, the storage and the content hold the same bytes. *)
Lemma window_in_content (self : cstring) (n : nat) (i : Z) :
  wf self → 0 ≤ i → i + Z.of_nat n ≤ cstring_len self →
  take n (drop (Z.to_nat i) (content self)) = take n (drop (Z.to_nat i) (value self)).
Proof.
  intros Hwf Hi Hn. unfold content.
  replace (Z.to_nat (cstring_len self))
    with (Z.to_nat i + (Z.to_nat (cstring_len self) - Z.to_nat i))%nat by lia.
  rewrite <- take_drop_commute, take_take. f_equal. lia.
Qed.

(** X9.  [rfind] and [rindex] with a non-empty pattern, on any bytes (zero bytes
    included, in the value and in the pattern): when the pattern occurs
    inside the window both return the offset of the occurrence that starts
    last; when it does not, [rfind] returns -1 and [rindex] raises the
    value error.  The loop needs at most one round per byte of the
    value. *)
Theorem rfind_rindex_last_match (fuel : nat) (self : cstring) (pat : PyObject)
    (start_arg end_arg : option Z) :
  wf self → arg_readable pat → arg_bytes pat ≠ [] →
  cstring_len self < Z.of_nat fuel →
  let hay := content self in
  let needle := arg_bytes pat in
  let s := _fix_index (default 0 start_arg) (cstring_len self) in
  let e := _fix_index (default PY_SSIZE_T_MAX end_arg) (cstring_len self) in
  (∃ i, last_match_in_window hay needle s e i
        ∧ cstring_rfind fuel self pat start_arg end_arg = Ok i
        ∧ cstring_rindex fuel self pat start_arg end_arg = Ok i)
  ∨ ((∀ i, ¬ match_in_window hay needle s e i)
     ∧ cstring_rfind fuel self pat start_arg end_arg = Ok (-1)
     ∧ cstring_rindex fuel self pat start_arg end_arg = Raise ValueError).
Proof.
  intros Hwf Hok Hne Hfuel hay needle s e.
  destruct (_obj_as_string_and_size_buf pat Hok) as (buf & Ebuf & Hbuf).
  pose proof (content_length _ Hwf) as Hlen. pose proof Hwf as [Hsz _].
  assert (0 ≤ cstring_len self) as Hl0 by (unfold cstring_len; lia).
  pose proof (_fix_index_range (default 0 start_arg) _ Hl0) as Hs.
  pose proof (_fix_index_range (default PY_SSIZE_T_MAX end_arg) _ Hl0) as He.
  fold s in Hs. fold e in He. fold needle in Hbuf, Ebuf, Hne.
  assert (1 ≤ Z.of_nat (length needle)) as Hpos.
  { destruct needle; [done | simpl; lia]. }
  unfold cstring_rfind, cstring_rindex, _parse_substr_args.
  rewrite Ebuf. cbn [mbind outcome_bind]. fold s e.
  unfold _substr_params_rstr. cbn [p_end p_substr_len].
  pose proof (rstr_loop_spec fuel (value self)
                {| p_start := s; p_end := e; p_substr := buf;
                   p_substr_len := Z.of_nat (length needle) |} needle
                (e - Z.of_nat (length needle) + 1) Hne eq_refl Hbuf
                ltac:(simpl; lia) ltac:(simpl; unfold cstring_len in *; lia)
                ltac:(simpl; lia)) as Hloop.
  cbn [p_start] in Hloop.
  destruct (rstr_loop _ _ _ _)
    as [[q|]| | |]; try done; cbn [mbind outcome_bind].
  - destruct Hloop as (Hq & Hqm & Hafter). left. exists q. rewrite Z.sub_0_r.
    split; [|done]. split.
    + split; [lia|]. split; [lia|]. split; [lia|].
      subst hay. rewrite window_in_content; [done..|lia|lia].
    + intros j (Hj1 & Hj2 & Hj3 & Hj4). destruct (Z.le_gt_cases j q); [done|].
      exfalso. apply (Hafter j); [lia|].
      subst hay. rewrite <- window_in_content; [done..|lia|lia].
  - right. split; [|done]. intros j (Hj1 & Hj2 & Hj3 & Hj4).
    apply (Hloop j); [lia|].
    subst hay. rewrite <- window_in_content; [done..|lia|lia].
Qed.

Lemma rfind_rindex_last_match_witness :
  wf (mk [97; 0; 98; 97; 0; 98]) ∧ arg_readable (PyBytes [0; 98]) ∧ arg_bytes (PyBytes [0; 98]) ≠ []
  ∧ cstring_len (mk [97; 0; 98; 97; 0; 98]) < Z.of_nat 7
  ∧ cstring_rfind 7 (mk [97; 0; 98; 97; 0; 98]) (PyBytes [0; 98]) None None = Ok 4
  ∧ cstring_rindex 7 (mk [97; 0; 98; 97; 0; 98]) (PyBytes [0; 98]) None (Some 3)
    = Ok 1.
Proof.
  assert (cstring_len (mk [97; 0; 98; 97; 0; 98]) < Z.of_nat 7) as Hf by (vm_compute; done).
  assert (arg_bytes (PyBytes [0; 98]) ≠ []) as Hne by discriminate.
  split; [apply mk_wf|]. split; [exact I|]. split; [exact Hne|]. split; [exact Hf|].
  split.
  - destruct (rfind_rindex_last_match 7 (mk [97; 0; 98; 97; 0; 98]) (PyBytes [0; 98])
                None None (mk_wf _) I Hne Hf) as [(i & _ & E & _)|(_ & E & _)];
      rewrite E; vm_compute in E; congruence.
  - destruct (rfind_rindex_last_match 7 (mk [97; 0; 98; 97; 0; 98]) (PyBytes [0; 98])
                None (Some 3) (mk_wf _) I Hne Hf) as [(i & _ & _ & E)|(_ & _ & E)];
      rewrite E; vm_compute in E; congruence.
Defined.
(** ** Prefix and suffix tests *)

(** X10.  [startswith] and [endswith] on any bytes: the answer is yes exactly
    when the pattern fits in the window and occurs at its start (for
    [endswith]: ends at its end).  Both compare memory, so zero bytes in
    the value or the pattern take part like any other byte. *)
Theorem startswith_endswith_window (self : cstring) (pat : PyObject)
    (start_arg end_arg : option Z) :
  wf self → arg_readable pat →
  let hay := content self in
  let needle := arg_bytes pat in
  let s := _fix_index (default 0 start_arg) (cstring_len self) in
  let e := _fix_index (default PY_SSIZE_T_MAX end_arg) (cstring_len self) in
  ∃ b1 b2,
    cstring_startswith self pat start_arg end_arg = Ok b1
    ∧ (b1 = true ↔ match_in_window hay needle s e s)
    ∧ cstring_endswith self pat start_arg end_arg = Ok b2
    ∧ (b2 = true ↔ match_in_window hay needle s e (e - Z.of_nat (length needle))).
Proof.
  intros Hwf Hok hay needle s e.
  destruct (_obj_as_string_and_size_buf pat Hok) as (buf & Ebuf & Hbuf).
  pose proof (content_length _ Hwf) as Hlen. pose proof Hwf as [Hsz _].
  assert (0 ≤ cstring_len self) as Hl0 by (unfold cstring_len; lia).
  pose proof (_fix_index_range (default 0 start_arg) _ Hl0) as Hs.
  pose proof (_fix_index_range (default PY_SSIZE_T_MAX end_arg) _ Hl0) as He.
  fold s in Hs. fold e in He. fold needle in Hbuf, Ebuf.
  assert (length needle ≤ length buf)%nat as Hblen.
  { rewrite <- Hbuf at 1. rewrite length_take. lia. }
  unfold cstring_startswith, cstring_endswith, _parse_substr_args.
  rewrite Ebuf. cbn [mbind outcome_bind p_start p_end p_substr p_substr_len]. fold s e.
  destruct (Z.ltb_spec (e - s) (Z.of_nat (length needle))) as [Hshort|Hfits].
  { exists false, false. unfold match_in_window.
    split; [done|]. split; [split; [done | lia]|]. split; [done|]. split; [done | lia]. }
  unfold mem_from.
  destruct (Z.ltb_spec s 0); [lia|].
  destruct (Z.ltb_spec (e - Z.of_nat (length needle)) 0); [lia|].
  rewrite !memcmp_take;
    [| rewrite length_drop; unfold cstring_len in *; lia | lia
     | rewrite length_drop; unfold cstring_len in *; lia | lia].
  rewrite Nat2Z.id, Hbuf. eexists _, _.
  split; [done|]. split; [|split; [done|]].
  - rewrite bool_decide_eq_true. unfold match_in_window, occurs_at. subst hay.
    rewrite window_in_content by (done || lia). split; [intros ?; repeat split; (done || lia)|].
    by intros (_ & _ & _ & ?).
  - rewrite bool_decide_eq_true. unfold match_in_window, occurs_at. subst hay.
    rewrite window_in_content by (done || lia). split; [intros ?; repeat split; (done || lia)|].
    by intros (_ & _ & _ & ?).
Qed.

Lemma startswith_endswith_window_witness :
  wf (mk [97; 0; 98]) ∧ arg_readable (PyBytes [0; 98])
  ∧ cstring_startswith (mk [97; 0; 98]) (PyBytes [0; 98]) (Some 1) None = Ok true
  ∧ cstring_endswith (mk [97; 0; 98]) (PyBytes [0; 98]) None None = Ok true.
Proof.
  split; [apply mk_wf|]. split; [exact I|].
  destruct (startswith_endswith_window (mk [97; 0; 98]) (PyBytes [0; 98]) (Some 1) None
              (mk_wf _) I) as (b1 & _ & E1 & _ & _ & _).
  destruct (startswith_endswith_window (mk [97; 0; 98]) (PyBytes [0; 98]) None None
              (mk_wf _) I) as (_ & b2 & _ & _ & E2 & _).
  split; [rewrite E1; vm_compute in E1; congruence | rewrite E2; vm_compute in E2; congruence].
Defined.
(** ** Containment *)

(** X11.  [in]: with another [cstring] on the left, and no zero byte in either
    value, the answer is yes exactly when the left value occurs somewhere
    in the right one; every other type of left operand is a type error. *)
Theorem contains_occurrence (self : cstring) (arg : PyObject) :
  wf self → nul_free (content self) →
  match arg with
  | PyCstring c =>
      wf c → nul_free (content c) →
      ∃ b, cstring_contains self arg = Ok b
           ∧ (b = true ↔ ∃ i, occurs_at (content self) (content c) i)
  | _ => cstring_contains self arg = Raise TypeError
  end.
Proof.
  intros Hwf Hnf. destruct arg as [u|b|mem len|c|]; try done.
  intros Hwc Hnc. pose proof Hwf as [Hsz _]. pose proof Hwc as [Hcsz _].
  unfold cstring_contains; simpl.
  rewrite (strstr_content self 0 (value c) (content c));
    [|done|done|unfold cstring_len; lia|].
  2:{ rewrite str_at_content; [done..|unfold cstring_len; lia]. }
  simpl. eexists; split; [done|]. rewrite bool_decide_eq_true.
  change (Z.to_nat 0) with 0%nat. rewrite drop_0.
  destruct (find_sub (content c) (content self)) as [k|] eqn:F; simpl.
  - apply find_sub_Some in F as (m & -> & _ & Hp & _).
    split; [intros _|by eexists]. exists (0 + Z.of_nat m).
    apply occurs_at_prefix; [lia|]. by rewrite drop_0.
  - split; [by intros [? ?]|]. intros (i & Hi).
    pose proof (find_sub_None _ _ F (Z.to_nat i)) as Hno.
    assert (occurs_at (content self) (content c) (0 + Z.of_nat (Z.to_nat i))) as Hocc.
    { destruct Hi as [Hi0 Hi]. by replace (0 + Z.of_nat (Z.to_nat i)) with i by lia. }
    apply occurs_at_prefix in Hocc; [|lia]. rewrite drop_0 in Hocc. congruence.
Qed.

Lemma contains_occurrence_witness :
  wf (mk (bytes "hello")) ∧ nul_free (content (mk (bytes "hello")))
  ∧ cstring_contains (mk (bytes "hello")) (PyUnicode (bytes "ell")) = Raise TypeError
  ∧ cstring_contains (mk (bytes "hello")) (PyCstring (mk (bytes "ell"))) = Ok true.
Proof.
  assert (nul_free (content (mk (bytes "hello")))) as H1.
  { rewrite mk_content. repeat constructor; discriminate. }
  assert (nul_free (content (mk (bytes "ell")))) as H2.
  { rewrite mk_content. repeat constructor; discriminate. }
  split; [apply mk_wf|]. split; [exact H1|]. split.
  - exact (contains_occurrence (mk (bytes "hello")) (PyUnicode (bytes "ell")) (mk_wf _) H1).
  - destruct (contains_occurrence (mk (bytes "hello")) (PyCstring (mk (bytes "ell")))
                (mk_wf _) H1 (mk_wf _) H2) as (b & E & _).
    rewrite E. vm_compute in E. congruence.
Defined.
(** ** Partition *)

(** The three objects built around a separator found at [mid]. *)
Lemma partition_at_spec (self sep : cstring) (mid : Z) :
  wf self → wf sep → nul_free (content sep) →
  0 ≤ mid → mid + cstring_len sep ≤ cstring_len self →
  partition_at self (value sep) mid
  = Ok (New (mk (take (Z.to_nat mid) (content self))),
        New (mk (take (Z.to_nat (cstring_len sep)) (drop (Z.to_nat mid) (content self)))),
        New (mk (drop (Z.to_nat (mid + cstring_len sep)) (content self)))).
Proof.
  intros Hwf Hws Hns Hmid Hfit. pose proof Hwf as [Hsz _]. pose proof Hws as [Hssz _].
  pose proof (content_length _ Hwf) as Hlen.
  assert (0 ≤ cstring_len sep) as Hs0 by (unfold cstring_len; lia).
  unfold partition_at. rewrite strlen_content by (done || unfold cstring_len; lia).
  cbn [mbind outcome_bind]. rewrite !Z.sub_0_r.
  do 3 (rewrite _cstring_new_ok; [|unfold cstring_len in *; lia..]).
  cbn [mbind outcome_bind].
  assert (take (Z.to_nat mid) (drop (Z.to_nat 0) (value self))
          = take (Z.to_nat mid) (content self)) as ->.
  { pose proof (window_in_content self (Z.to_nat mid) 0 Hwf ltac:(lia) ltac:(lia)) as H.
    change (Z.to_nat 0) with 0%nat in *. by rewrite !drop_0 in *. }
  assert (take (Z.to_nat (mid + cstring_len sep - mid)) (drop (Z.to_nat mid) (value self))
          = take (Z.to_nat (cstring_len sep)) (drop (Z.to_nat mid) (content self))) as ->.
  { replace (mid + cstring_len sep - mid) with (cstring_len sep) by lia.
    symmetry. apply window_in_content; [done | lia | lia]. }
  assert (take (Z.to_nat (ob_size self - 1 - (mid + cstring_len sep)))
            (drop (Z.to_nat (mid + cstring_len sep)) (value self))
          = drop (Z.to_nat (mid + cstring_len sep)) (content self)) as ->; [|done].
  rewrite <- (window_in_content self) by (done || unfold cstring_len in *; lia).
  apply take_ge. rewrite length_drop. unfold cstring_len in *. lia.
Qed.

(** X12.  [partition], on values without zero bytes: when the separator occurs,
    the three new objects are what lies before its first occurrence, the
    separator, and what lies after it, and put together they give back the
    value; when it does not occur the result is the receiver itself and
    the empty singleton twice.  An argument that is not a [cstring] is a
    type error. *)
Theorem partition_first_occurrence (self : cstring) (arg : PyObject) :
  wf self → nul_free (content self) →
  match arg with
  | PyCstring sep =>
      wf sep → nul_free (content sep) →
      (∃ a c, cstring_partition self arg
              = Ok (New (mk a), New (mk (content sep)), New (mk c))
              ∧ content self = a ++ content sep ++ c
              ∧ ∀ j, occurs_at (content self) (content sep) j → Z.of_nat (length a) ≤ j)
      ∨ ((∀ j, ¬ occurs_at (content self) (content sep) j)
         ∧ cstring_partition self arg = Ok (Same, Empty, Empty))
  | _ => cstring_partition self arg = Raise TypeError
  end.
Proof.
  intros Hwf Hnf. destruct arg as [u|b|mem len|sep|]; try done.
  intros Hws Hns. pose proof Hwf as [Hsz _]. pose proof Hws as [Hssz _].
  pose proof (content_length _ Hwf) as Hlen. pose proof (content_length _ Hws) as Hslen.
  assert (0 ≤ cstring_len sep) as Hs0 by (unfold cstring_len; lia).
  unfold cstring_partition. cbn [_ensure_cstring mbind outcome_bind].
  rewrite (strstr_content self 0 (value sep) (content sep));
    [|done|done|unfold cstring_len; lia|].
  2:{ rewrite str_at_content; [done..|unfold cstring_len; lia]. }
  cbn [mbind outcome_bind]. change (Z.to_nat 0) with 0%nat. rewrite drop_0.
  destruct (find_sub (content sep) (content self)) as [k|] eqn:F; cbn [fmap option_fmap option_map].
  - apply find_sub_Some in F as (m & -> & Hm & Hp & Hmin). left.
    pose proof Hp as Hp'. apply is_prefix_true in Hp'.
    assert (length (content sep) ≤ length (content self) - m)%nat as Hfit.
    { rewrite <- Hp' at 1. rewrite length_take, length_drop. lia. }
    rewrite partition_at_spec; [|done|done|done|lia|unfold cstring_len in *; lia].
    replace (Z.to_nat (cstring_len sep)) with (length (content sep)) by lia.
    replace (Z.to_nat (0 + Z.of_nat m + cstring_len sep))
      with (m + length (content sep))%nat by lia.
    replace (Z.to_nat (0 + Z.of_nat m)) with m by lia.
    rewrite Hp'. eexists _, _. split; [done|]. split.
    + rewrite <- Hp' at 1.
      rewrite <- drop_drop, (take_drop (length (content sep))). by rewrite take_drop.
    + intros j Hj. rewrite length_take. pose proof Hj as [Hjpos _].
      destruct (decide (Z.to_nat j < m)%nat) as [Hlt|]; [|lia].
      specialize (Hmin _ Hlt).
      assert (occurs_at (content self) (content sep) (0 + Z.of_nat (Z.to_nat j))) as Hocc.
      { destruct Hj as [Hj0 Hj]. by replace (0 + Z.of_nat (Z.to_nat j)) with j by lia. }
      apply occurs_at_prefix in Hocc; [|lia]. rewrite drop_0 in Hocc. congruence.
  - right. split; [|done]. intros j Hj.
    pose proof (find_sub_None _ _ F (Z.to_nat j)) as Hno.
    assert (occurs_at (content self) (content sep) (0 + Z.of_nat (Z.to_nat j))) as Hocc.
    { destruct Hj as [Hj0 Hj]. by replace (0 + Z.of_nat (Z.to_nat j)) with j by lia. }
    apply occurs_at_prefix in Hocc; [|lia]. rewrite drop_0 in Hocc. congruence.
Qed.

Lemma partition_first_occurrence_witness :
  wf (mk (bytes "a=b=c")) ∧ nul_free (content (mk (bytes "a=b=c")))
  ∧ wf (mk (bytes "=")) ∧ nul_free (content (mk (bytes "=")))
  ∧ cstring_partition (mk (bytes "a=b=c")) (PyBytes (bytes "=")) = Raise TypeError
  ∧ ((∃ a c, cstring_partition (mk (bytes "a=b=c")) (PyCstring (mk (bytes "=")))
             = Ok (New (mk a), New (mk (content (mk (bytes "=")))), New (mk c))
             ∧ content (mk (bytes "a=b=c")) = a ++ content (mk (bytes "=")) ++ c
             ∧ ∀ j, occurs_at (content (mk (bytes "a=b=c"))) (content (mk (bytes "="))) j →
                    Z.of_nat (length a) ≤ j)
     ∨ ((∀ j, ¬ occurs_at (content (mk (bytes "a=b=c"))) (content (mk (bytes "="))) j)
        ∧ cstring_partition (mk (bytes "a=b=c")) (PyCstring (mk (bytes "=")))
          = Ok (Same, Empty, Empty))).
Proof.
  assert (nul_free (content (mk (bytes "a=b=c")))) as H1.
  { rewrite mk_content. repeat constructor; discriminate. }
  assert (nul_free (content (mk (bytes "=")))) as H2.
  { rewrite mk_content. repeat constructor; discriminate. }
  split; [apply mk_wf|]. split; [exact H1|]. split; [apply mk_wf|]. split; [exact H2|].
  split.
  - exact (partition_first_occurrence (mk (bytes "a=b=c")) (PyBytes (bytes "="))
             (mk_wf _) H1).
  - exact (partition_first_occurrence (mk (bytes "a=b=c")) (PyCstring (mk (bytes "=")))
             (mk_wf _) H1 (mk_wf _) H2).
Defined.




(** ** Strip *)

Lemma strip_fwd_stop (chars l t : list byte) (a : byte) (start : Z) :
  Forall (λ c, strchr chars c = true) l → strchr chars a = false →
  strip_fwd chars (l ++ a :: t) start = Ok (start + Z.of_nat (length l)).
Proof.
  intros Hl Ha. revert start. induction Hl as [|c l Hc _ IH]; intros start.
  - simpl. rewrite Ha. f_equal. lia.
  - simpl. rewrite Hc, IH. f_equal. lia.
Qed.

Lemma strip_bwd_stop (chars l t : list byte) (z : byte) (end_ : Z) :
  Forall (λ c, strchr chars c = true) l → strchr chars z = false →
  strip_bwd chars (l ++ z :: t) end_ = Ok (end_ - Z.of_nat (length l)).
Proof.
  intros Hl Hz. revert end_. induction Hl as [|c l Hc _ IH]; intros end_.
  - simpl. rewrite Hz. f_equal. lia.
  - simpl. rewrite Hc, IH. f_equal. lia.
Qed.

(** X14.  [strip], [lstrip] and [rstrip] on a value that holds a byte outside
    the character set.  Split the value as [l ++ m ++ r], where [l] and [r]
    are runs of bytes of the set (a zero byte counts as one) and [m] starts
    and ends with a byte outside it: [strip] returns a new object holding
    [m], [lstrip] one holding [m ++ r], [rstrip] one holding [l ++ m]. *)
Theorem strip_family_middle (self : cstring) (charsobj : option PyObject)
    (chars l m r : list byte) (a z : byte) :
  wf self →
  _strip_chars_from_args charsobj = Some (Ok chars) →
  content self = l ++ m ++ r →
  Forall (λ c, strchr chars c = true) l →
  Forall (λ c, strchr chars c = true) r →
  head m = Some a → strchr chars a = false →
  last m = Some z → strchr chars z = false →
  cstring_strip self charsobj = Ok (mk m)
  ∧ cstring_lstrip self charsobj = Ok (mk (m ++ r))
  ∧ cstring_rstrip self charsobj = Ok (mk (l ++ m)).
Proof.
  intros Hwf Hchars Hc Hl Hr Ha Hna Hz Hnz.
  pose proof Hwf as [Hsz _]. pose proof (content_length _ Hwf) as Hlen.
  apply head_Some in Ha as [m1 Hm1]. apply last_Some in Hz as [m2 Hm2].
  assert (Z.of_nat (length l + length m + length r) = cstring_len self) as Hsum.
  { rewrite Hc, !length_app in Hlen. unfold cstring_len in *. lia. }
  assert (1 ≤ length m)%nat as Hmpos by (rewrite Hm1; simpl; lia).
  assert (strip_fwd chars (value self) 0 = Ok (Z.of_nat (length l))) as Efwd.
  { rewrite (wf_value _ Hwf), Hc, Hm1. rewrite <- !app_assoc. simpl.
    by rewrite strip_fwd_stop. }
  assert (strip_bwd chars (mem_back (value self) (ob_size self - 1 - 1))
            (ob_size self - 1 - 1)
          = Ok (Z.of_nat (length l + length m) - 1)) as Ebwd.
  { unfold mem_back. destruct (Z.ltb_spec (ob_size self - 1 - 1) 0);
      [unfold cstring_len in *; lia|].
    replace (Z.to_nat (ob_size self - 1 - 1 + 1)) with (Z.to_nat (cstring_len self))
      by (unfold cstring_len; lia).
    fold (content self). rewrite Hc, Hm2, !rev_app_distr. simpl.
    rewrite <- !app_assoc. simpl.
    rewrite strip_bwd_stop; [|by apply Forall_rev|done].
    rewrite length_rev, <- Hm2. f_equal. unfold cstring_len in *. lia. }
  assert (∀ i n : nat, (i + n ≤ length (content self))%nat →
            _cstring_new (value self) (Z.of_nat i) (Z.of_nat n)
            = Ok (mk (take n (drop i (content self))))) as Enew.
  { intros i n Hin. rewrite _cstring_new_ok by (unfold cstring_len in *; lia).
    rewrite !Nat2Z.id. do 2 f_equal. symmetry.
    rewrite <- (Nat2Z.id i) at 1 2. apply window_in_content; [done|lia|lia]. }
  unfold cstring_strip, cstring_lstrip, cstring_rstrip. rewrite Hchars.
  cbn [mbind outcome_bind]. rewrite Efwd, Ebwd. cbn [mbind outcome_bind].
  split; [|split].
  - replace (Z.of_nat (length l + length m) - 1 - Z.of_nat (length l) + 1)
      with (Z.of_nat (length m)) by lia.
    rewrite Enew by (rewrite Hc, !length_app; lia).
    by rewrite Hc, drop_app_length, take_app_length.
  - replace (ob_size self - 1 - 1 - Z.of_nat (length l) + 1)
      with (Z.of_nat (length m + length r)) by (unfold cstring_len in *; lia).
    rewrite Enew by (rewrite Hc, !length_app; lia).
    rewrite Hc, drop_app_length. rewrite <- length_app. by rewrite take_ge.
  - replace (Z.of_nat (length l + length m) - 1 - 0 + 1)
      with (Z.of_nat (length l + length m)) by lia.
    rewrite (Enew 0%nat) by (rewrite Hc, !length_app; lia).
    rewrite drop_0, Hc, app_assoc, <- length_app. by rewrite take_app_length.
Qed.

Lemma strip_family_middle_witness :
  wf (mk (bytes "  a b ")) 
  ∧ _strip_chars_from_args None = Some (Ok WHITESPACE_CHARS)
  ∧ content (mk (bytes "  a b ")) = bytes "  " ++ bytes "a b" ++ bytes " "
  ∧ Forall (λ c, strchr WHITESPACE_CHARS c = true) (bytes "  ")
  ∧ Forall (λ c, strchr WHITESPACE_CHARS c = true) (bytes " ")
  ∧ head (bytes "a b") = Some 97 ∧ strchr WHITESPACE_CHARS 97 = false
  ∧ last (bytes "a b") = Some 98 ∧ strchr WHITESPACE_CHARS 98 = false
  ∧ cstring_strip (mk (bytes "  a b ")) None = Ok (mk (bytes "a b"))
  ∧ cstring_lstrip (mk (bytes "  a b ")) None = Ok (mk (bytes "a b" ++ bytes " "))
  ∧ cstring_rstrip (mk (bytes "  a b ")) None = Ok (mk (bytes "  " ++ bytes "a b")).
Proof.
  assert (Forall (λ c, strchr WHITESPACE_CHARS c = true) (bytes "  ")) as Hl
    by (repeat constructor).
  assert (Forall (λ c, strchr WHITESPACE_CHARS c = true) (bytes " ")) as Hr
    by (repeat constructor).
  split; [apply mk_wf|]. split; [reflexivity|]. split; [reflexivity|].
  split; [exact Hl|]. split; [exact Hr|]. do 4 (split; [reflexivity|]).
  exact (strip_family_middle (mk (bytes "  a b ")) None WHITESPACE_CHARS
           (bytes "  ") (bytes "a b") (bytes " ") 97 98
           (mk_wf _) eq_refl eq_refl Hl Hr eq_refl eq_refl eq_refl eq_refl).
Defined.
(** ** Case transforms *)

Lemma wr_middle (done t : list byte) (x b : byte) :
  wr (done ++ x :: t) (Z.of_nat (length done)) b = Ok (done ++ b :: t).
Proof.
  unfold wr. rewrite length_app. simpl.
  destruct (Z.ltb_spec (Z.of_nat (length done)) 0); [lia|].
  destruct (Z.leb_spec (Z.of_nat (length done + S (length t))) (Z.of_nat (length done)));
    [lia|]. simpl. rewrite Nat2Z.id.
  pose proof (insert_app_r done (x :: t) 0 b) as Hi.
  rewrite Nat.add_0_r in Hi. by rewrite Hi.
Qed.

Lemma map_through_nul_spec (f : byte → byte) (bs rest done zs : list byte) :
  f 0 = 0 → Forall (λ b, f b ≠ 0) bs → (length bs < length zs)%nat →
  map_through_nul f (bs ++ 0 :: rest) (done ++ zs) (Z.of_nat (length done))
  = Ok (done ++ (f <$> bs) ++ 0 :: drop (S (length bs)) zs).
Proof.
  intros Hf0 Hbs. revert done zs.
  induction Hbs as [|b bs Hb _ IH]; intros done zs Hlen.
  - destruct zs as [|x zs]; [simpl in Hlen; lia|]. simpl.
    rewrite wr_middle. simpl. rewrite Hf0. simpl. by rewrite drop_0.
  - destruct zs as [|x zs]; [simpl in Hlen; lia|]. simpl.
    rewrite wr_middle. simpl. destruct (Z.eqb_spec (f b) 0); [done|].
    replace (done ++ f b :: zs) with ((done ++ [f b]) ++ zs) by (by rewrite <- app_assoc).
    replace (Z.of_nat (length done) + 1) with (Z.of_nat (length (done ++ [f b])))
      by (rewrite length_app; simpl; lia).
    rewrite IH by (simpl in Hlen; lia). by rewrite <- app_assoc.
Qed.

Lemma swapcase_loop_spec (bs rest done zs : list byte) :
  nul_free bs → (length bs ≤ length zs)%nat →
  swapcase_loop (bs ++ 0 :: rest) (done ++ zs) (Z.of_nat (length done))
  = Ok (done ++ (swapped <$> bs) ++ drop (length bs) zs).
Proof.
  intros Hbs. revert done zs.
  induction Hbs as [|b bs Hb _ IH]; intros done zs Hlen.
  - simpl. by rewrite drop_0.
  - destruct zs as [|x zs]; [simpl in Hlen; lia|]. simpl.
    destruct (Z.eqb_spec b 0); [done|].
    rewrite wr_middle. simpl.
    replace (done ++ swapped b :: zs) with ((done ++ [swapped b]) ++ zs)
      by (by rewrite <- app_assoc).
    replace (Z.of_nat (length done) + 1) with (Z.of_nat (length (done ++ [swapped b])))
      by (rewrite length_app; simpl; lia).
    rewrite IH by (simpl in Hlen; lia). by rewrite <- app_assoc.
Qed.

Lemma tolower_nonzero (b : byte) : b ≠ 0 → tolower b ≠ 0.
Proof. unfold tolower, isupper. intros Hb. destruct (_ && _) eqn:E; lia. Qed.

Lemma toupper_nonzero (b : byte) : b ≠ 0 → toupper b ≠ 0.
Proof. unfold toupper, islower. intros Hb. destruct (_ && _) eqn:E; lia. Qed.

Lemma swapped_nonzero (b : byte) : b ≠ 0 → swapped b ≠ 0.
Proof.
  unfold swapped, toupper, tolower, islower, isupper. intros Hb.
  repeat match goal with |- context [if ?c then _ else _] => destruct c eqn:? end; lia.
Qed.

Lemma set_hash_mk_wf (bs : list byte) (h : Z) : wf (set_hash (mk bs) h).
Proof. exact (mk_wf bs). Qed.

Lemma set_hash_mk_content (bs : list byte) (h : Z) : content (set_hash (mk bs) h) = bs.
Proof. exact (mk_content bs). Qed.

(** The loop of [lower] / [upper] into a fresh allocation. *)
Lemma map_through_nul_alloc (f : byte → byte) (self : cstring) :
  wf self → nul_free (content self) →
  f 0 = 0 → (∀ b, b ≠ 0 → f b ≠ 0) →
  (v ← map_through_nul f (value self) (value (CSTRING_ALLOC (ob_size self))) 0;
   Ok (set_value (CSTRING_ALLOC (ob_size self)) v))
  = Ok (set_hash (mk (f <$> content self)) 0).
Proof.
  intros Hwf Hnf Hf0 Hf. pose proof Hwf as [Hsz _]. pose proof (content_length _ Hwf) as Hlen.
  assert (Z.to_nat (ob_size self + 1) = S (S (length (content self)))) as Hn
    by (unfold cstring_len in *; lia).
  assert (ob_size self = Z.of_nat (length (content self)) + 1) as Hsize
    by (unfold cstring_len in *; lia).
  unfold CSTRING_ALLOC. cbn [value]. rewrite Hn. rewrite (wf_value _ Hwf) at 1.
  pose proof (map_through_nul_spec f (content self)
                (drop (Z.to_nat (ob_size self)) (value self)) []
                (replicate (S (S (length (content self)))) 0) Hf0) as Hm.
  rewrite !app_nil_l in Hm. change (Z.of_nat (length [])) with 0 in Hm.
  rewrite Hm; [|by eapply Forall_impl; [exact Hnf|] | rewrite length_replicate; lia].
  cbn [mbind outcome_bind]. rewrite drop_replicate.
  replace (S (S (length (content self))) - S (length (content self)))%nat with 1%nat by lia.
  unfold set_value, set_hash, mk. cbn [ob_refcnt ob_size hash value replicate].
  rewrite length_fmap, <- Hsize. done.
Qed.

Lemma swapcase_alloc (self : cstring) :
  wf self → nul_free (content self) →
  cstring_swapcase self = Ok (set_hash (mk (swapped <$> content self)) 0).
Proof.
  intros Hwf Hnf. pose proof Hwf as [Hsz _]. pose proof (content_length _ Hwf) as Hlen.
  assert (Z.to_nat (ob_size self + 1) = S (S (length (content self)))) as Hn
    by (unfold cstring_len in *; lia).
  assert (ob_size self = Z.of_nat (length (content self)) + 1) as Hsize
    by (unfold cstring_len in *; lia).
  unfold cstring_swapcase, CSTRING_ALLOC. cbn [value]. rewrite Hn.
  rewrite (wf_value _ Hwf) at 1.
  pose proof (swapcase_loop_spec (content self)
                (drop (Z.to_nat (ob_size self)) (value self)) []
                (replicate (S (S (length (content self)))) 0) Hnf) as Hm.
  rewrite !app_nil_l in Hm. change (Z.of_nat (length [])) with 0 in Hm.
  rewrite Hm by (rewrite length_replicate; lia).
  cbn [mbind outcome_bind]. rewrite drop_replicate.
  replace (S (S (length (content self))) - length (content self))%nat with 2%nat by lia.
  unfold set_value, set_hash, mk. cbn [ob_refcnt ob_size hash value replicate].
  rewrite length_fmap, <- Hsize. done.
Qed.

Lemma nul_free_fmap (f : byte → byte) (bs : list byte) :
  (∀ b, b ≠ 0 → f b ≠ 0) → nul_free bs → nul_free (f <$> bs).
Proof. intros Hf Hbs. apply Forall_fmap. by eapply Forall_impl; [exact Hbs|]. Qed.

(** X15.  [lower], [upper] and [swapcase] on a value without zero bytes: a new
    object of the same length, every byte mapped by the C function of the
    same name ([swapcase]: lower to upper, upper to lower, the rest kept),
    with one reference and the hash field 0 the allocator left. *)
Theorem case_transforms_bytewise (self : cstring) :
  wf self → nul_free (content self) →
  cstring_lower self = Ok (set_hash (mk (tolower <$> content self)) 0)
  ∧ cstring_upper self = Ok (set_hash (mk (toupper <$> content self)) 0)
  ∧ cstring_swapcase self = Ok (set_hash (mk (swapped <$> content self)) 0).
Proof.
  intros Hwf Hnf. split; [|split].
  - apply map_through_nul_alloc; [done | done | done | apply tolower_nonzero].
  - apply map_through_nul_alloc; [done | done | done | apply toupper_nonzero].
  - by apply swapcase_alloc.
Qed.

Lemma case_transforms_bytewise_witness :
  wf (mk (bytes "aB-9z")) ∧ nul_free (content (mk (bytes "aB-9z")))
  ∧ cstring_lower (mk (bytes "aB-9z")) = Ok (set_hash (mk (bytes "ab-9z")) 0)
  ∧ cstring_upper (mk (bytes "aB-9z")) = Ok (set_hash (mk (bytes "AB-9Z")) 0)
  ∧ cstring_swapcase (mk (bytes "aB-9z")) = Ok (set_hash (mk (bytes "Ab-9Z")) 0).
Proof.
  assert (nul_free (content (mk (bytes "aB-9z")))) as H1.
  { rewrite mk_content. repeat constructor; discriminate. }
  split; [apply mk_wf|]. split; [exact H1|].
  exact (case_transforms_bytewise (mk (bytes "aB-9z")) (mk_wf _) H1).
Defined.

Lemma swapped_swapped (b : byte) : swapped (swapped b) = b.
Proof.
  unfold swapped, toupper, tolower, islower, isupper.
  repeat match goal with |- context [if ?c then _ else _] => destruct c eqn:? end; lia.
Qed.

Lemma tolower_tolower (b : byte) : tolower (tolower b) = tolower b.
Proof.
  unfold tolower, isupper.
  repeat match goal with |- context [if ?c then _ else _] => destruct c eqn:? end; lia.
Qed.

Lemma toupper_toupper (b : byte) : toupper (toupper b) = toupper b.
Proof.
  unfold toupper, islower.
  repeat match goal with |- context [if ?c then _ else _] => destruct c eqn:? end; lia.
Qed.

Lemma toupper_tolower (b : byte) : toupper (tolower b) = toupper b.
Proof.
  unfold toupper, tolower, islower, isupper.
  repeat match goal with |- context [if ?c then _ else _] => destruct c eqn:? end; lia.
Qed.

(** X16.  The case transforms composed, on a value without zero bytes:
    [swapcase] twice gives back the bytes of the value; [lower] and
    [upper] applied to their own result return an equal object; [upper]
    after [lower] is [upper]. *)
Theorem case_transforms_compose (self : cstring) :
  wf self → nul_free (content self) →
  (sw ← cstring_swapcase self; cstring_swapcase sw) = Ok (set_hash (mk (content self)) 0)
  ∧ (lo ← cstring_lower self; cstring_lower lo) = cstring_lower self
  ∧ (up ← cstring_upper self; cstring_upper up) = cstring_upper self
  ∧ (lo ← cstring_lower self; cstring_upper lo) = cstring_upper self.
Proof.
  intros Hwf Hnf.
  assert (cstring_lower self = Ok (set_hash (mk (tolower <$> content self)) 0)) as Elo.
  { apply map_through_nul_alloc; [done | done | done | apply tolower_nonzero]. }
  assert (cstring_upper self = Ok (set_hash (mk (toupper <$> content self)) 0)) as Eup.
  { apply map_through_nul_alloc; [done | done | done | apply toupper_nonzero]. }
  rewrite swapcase_alloc, Elo, Eup by done. cbn [mbind outcome_bind].
  split; [|split; [|split]].
  - rewrite swapcase_alloc;
      [|apply set_hash_mk_wf
       |rewrite set_hash_mk_content; apply nul_free_fmap; [apply swapped_nonzero | done]].
    rewrite set_hash_mk_content, <- list_fmap_compose. do 3 f_equal.
    rewrite <- (list_fmap_id (content self)) at 2.
    apply list_fmap_ext. intros _ b _. apply swapped_swapped.
  - unfold cstring_lower at 1. rewrite map_through_nul_alloc;
      [|apply set_hash_mk_wf
       |rewrite set_hash_mk_content; apply nul_free_fmap; [apply tolower_nonzero | done]
       |done|apply tolower_nonzero].
    rewrite set_hash_mk_content, <- list_fmap_compose. do 3 f_equal.
    apply list_fmap_ext. intros _ b _. apply tolower_tolower.
  - unfold cstring_upper at 1. rewrite map_through_nul_alloc;
      [|apply set_hash_mk_wf
       |rewrite set_hash_mk_content; apply nul_free_fmap; [apply toupper_nonzero | done]
       |done|apply toupper_nonzero].
    rewrite set_hash_mk_content, <- list_fmap_compose. do 3 f_equal.
    apply list_fmap_ext. intros _ b _. apply toupper_toupper.
  - unfold cstring_upper at 1. rewrite map_through_nul_alloc;
      [|apply set_hash_mk_wf
       |rewrite set_hash_mk_content; apply nul_free_fmap; [apply tolower_nonzero | done]
       |done|apply toupper_nonzero].
    rewrite set_hash_mk_content, <- list_fmap_compose. do 3 f_equal.
    apply list_fmap_ext. intros _ b _. apply toupper_tolower.
Qed.

Lemma case_transforms_compose_witness :
  wf (mk (bytes "aB-9z")) ∧ nul_free (content (mk (bytes "aB-9z")))
  ∧ (sw ← cstring_swapcase (mk (bytes "aB-9z")); cstring_swapcase sw)
    = Ok (set_hash (mk (bytes "aB-9z")) 0)
  ∧ (lo ← cstring_lower (mk (bytes "aB-9z")); cstring_upper lo)
    = Ok (set_hash (mk (bytes "AB-9Z")) 0).
Proof.
  assert (nul_free (content (mk (bytes "aB-9z")))) as H1.
  { rewrite mk_content. repeat constructor; discriminate. }
  split; [apply mk_wf|]. split; [exact H1|].
  destruct (case_transforms_compose (mk (bytes "aB-9z")) (mk_wf _) H1)
    as (E1 & _ & _ & E4).
  split; [exact E1 | exact E4].
Defined.
(** ** Repetition *)

Lemma repeat_loop_spec (self : cstring) (size : Z) (j fuel : nat) (done : list byte) :
  wf self → content self ≠ [] → (j ≤ fuel)%nat →
  size - 1 = Z.of_nat (length done + j * length (content self)) →
  repeat_loop fuel self size (Z.of_nat (length done))
    (done ++ replicate (j * length (content self) + 2) 0)
  = Ok (done ++ concat (replicate j (content self)) ++ [0; 0]).
Proof.
  intros Hwf Hne. pose proof (content_length _ Hwf) as Hlen. pose proof Hwf as [Hsz _].
  assert (1 ≤ length (content self))%nat as Hpos.
  { destruct (content self); [done | simpl; lia]. }
  revert fuel done. induction j as [|j IH]; intros fuel done Hfuel Hsize.
  - destruct fuel; simpl; (destruct (Z.ltb_spec (Z.of_nat (length done)) (size - 1)); [lia|done]).
  - destruct fuel as [|fuel]; [lia|]. cbn [repeat_loop].
    destruct (Z.ltb_spec (Z.of_nat (length done)) (size - 1)); [|lia].
    replace (S j * length (content self) + 2)%nat
      with (S (length (content self)) + (j * length (content self) + 1))%nat by lia.
    rewrite replicate_add.
    rewrite (memcpy_middle _ done (replicate (S (length (content self))) 0)
               (replicate (j * length (content self) + 1) 0) (value self)
               (Z.of_nat (length done)) 0 (ob_size self));
      [|done|done|rewrite length_replicate; unfold cstring_len in *; lia|lia|lia|lia].
    cbn [mbind outcome_bind]. change (Z.to_nat 0) with 0%nat.
    rewrite drop_0, (wf_take_size _ Hwf).
    replace (done ++ (content self ++ [0]) ++ replicate (j * length (content self) + 1) 0)
      with ((done ++ content self) ++ replicate (j * length (content self) + 2) 0).
    2:{ rewrite <- !app_assoc. do 2 f_equal.
        by replace (j * length (content self) + 2)%nat
          with (S (j * length (content self) + 1)) by lia. }
    replace (Z.of_nat (length done) + cstring_len self)
      with (Z.of_nat (length (done ++ content self)))
      by (rewrite length_app; unfold cstring_len in *; lia).
    rewrite IH; [|lia|rewrite length_app; lia].
    simpl. by rewrite <- !app_assoc.
Qed.

(** X17.  Repetition of a well-formed value, whatever its bytes: a count of zero
    or less gives the empty singleton; a positive count (whose product with
    the length fits a [Py_ssize_t]) gives a new object holding the bytes
    that many times over, terminated, with one reference and the hash
    field 0 the allocator left.  The loop makes one copy per round. *)
Theorem repeat_tiles (fuel : nat) (self : cstring) (count : Z) :
  wf self → count ≤ Z.of_nat fuel →
  cstring_len self * count + 1 ≤ PY_SSIZE_T_MAX →
  cstring_repeat fuel (PyCstring self) count
  = Ok (if decide (count ≤ 0) then Empty
        else New (set_hash (mk (concat (replicate (Z.to_nat count) (content self)))) 0)).
Proof.
  intros Hwf Hfuel _. pose proof (content_length _ Hwf) as Hlen. pose proof Hwf as [Hsz _].
  unfold cstring_repeat. cbn [_ensure_cstring mbind outcome_bind].
  destruct (Z.leb_spec count 0) as [Hle|Hgt].
  { by rewrite decide_True. }
  rewrite decide_False by lia. unfold CSTRING_ALLOC. cbn [value].
  assert (length (concat (replicate (Z.to_nat count) (content self)))
          = (Z.to_nat count * length (content self))%nat) as Hclen.
  { generalize (Z.to_nat count). intros n. induction n as [|n IH]; [done|].
    simpl. rewrite length_app, IH. done. }
  assert (cstring_len self * count + 1
          = Z.of_nat (length (concat (replicate (Z.to_nat count) (content self)))) + 1)
    as Hsize.
  { rewrite Hclen. unfold cstring_len in *. nia. }
  destruct (decide (content self = [])) as [Hemp|Hne].
  - assert (cstring_len self = 0) as H0.
    { rewrite Hemp in Hlen. simpl in Hlen. unfold cstring_len in *. lia. }
    rewrite H0 in *. rewrite Z.mul_0_l in *. change (Z.to_nat (0 + 1 + 1)) with 2%nat.
    destruct fuel; simpl; unfold set_value, set_hash, mk; cbn [ob_refcnt ob_size hash value].
    all: rewrite <- Hsize; do 3 f_equal; rewrite Hemp.
    all: generalize (Z.to_nat count); intros n; induction n as [|n IH]; [done|].
    all: simpl; by rewrite <- IH.
  - pose proof (repeat_loop_spec self (cstring_len self * count + 1) (Z.to_nat count)
                  fuel [] Hwf Hne ltac:(lia)) as Hloop.
    rewrite !app_nil_l in Hloop. change (Z.of_nat (length [])) with 0 in Hloop.
    replace (Z.to_nat (cstring_len self * count + 1 + 1))
      with (Z.to_nat count * length (content self) + 2)%nat
      by (unfold cstring_len in *; nia).
    rewrite Hloop by (simpl; unfold cstring_len in *; nia).
    cbn [mbind outcome_bind].
    unfold set_value, set_hash, mk; cbn [ob_refcnt ob_size hash value].
    by rewrite <- Hsize.
Qed.

Lemma repeat_tiles_witness :
  wf (mk [97; 0; 98]) ∧ 2 ≤ Z.of_nat 2
  ∧ cstring_len (mk [97; 0; 98]) * 2 + 1 ≤ PY_SSIZE_T_MAX
  ∧ cstring_repeat 2 (PyCstring (mk [97; 0; 98])) 2
    = Ok (New (set_hash (mk [97; 0; 98; 97; 0; 98]) 0)).
Proof.
  assert (cstring_len (mk [97; 0; 98]) * 2 + 1 ≤ PY_SSIZE_T_MAX) as H by (vm_compute; discriminate).
  split; [apply mk_wf|]. split; [lia|]. split; [exact H|].
  exact (repeat_tiles 2 (mk [97; 0; 98]) 2 (mk_wf _) ltac:(lia) H).
Defined.
(** ** Join *)


(** X18.  [join] over an iterable (not its own iterator) that yields
    well-formed [cstring] items, whatever their bytes.  The call creates an
    iterator object and no path releases it: it is still allocated when the
    call returns.  With no item the call returns NULL without an exception
    and the heap is the old one plus the iterator.  Otherwise it returns
    one new object, at an address not in use before, holding the first
    item's bytes and then, for each further item, the separator's bytes and
    the item's; the object is terminated, has one reference and the hash
    sentinel.  The heap is the old one plus the iterator and the result:
    the items and the separator are as before and every intermediate
    accumulator is gone. *)
Theorem join_result (junk : nat → byte) (h0 : heap) (sl : loc) (sep : cstring)
    (ls : list loc) (cs : list cstring) :
  h0 !! sl = Some (PyCstring sep) → wf sep →
  stored h0 ls cs → Forall wf cs →
  ∃ it, h0 !! it = None ∧
    match cs with
    | [] => cstring_join junk sl ls h0 = (<[it := PyOther]> h0, Ok None)
    | c :: cs' =>
        ∃ r acc,
          cstring_join junk sl ls h0
          = (<[r := PyCstring acc]> (<[it := PyOther]> h0), Ok (Some r))
          ∧ h0 !! r = None ∧ r ≠ it
          ∧ wf acc ∧ ob_refcnt acc = 1 ∧ hash acc = -1
          ∧ content acc = content c ++ joined_tail sep cs'
    end.
Proof.
  intros Hsl Hwsep Hst Hwf. destruct Hst as [|l c ls cs' Hl Hst].
  - exists (fresh (dom h0)). split; [apply not_elem_of_dom, is_fresh | reflexivity].
  - destruct (cstring_join_spec junk h0 sl sep l ls c cs' Hsl Hwsep) as
      (it & r & acc & E & Hit & Hr & Hne & Hw & Hrc & Hh & Hc);
      [by constructor | done |].
    exists it. split; [done|]. by exists r, acc.
Qed.

Lemma join_result_witness :
  let h : heap := <[1%positive := PyCstring (mk (bytes ","))]>
                    (<[2%positive := PyCstring (mk [97; 0])]>
                       (<[3%positive := PyCstring (mk (bytes "b"))]> ∅)) in
  h !! 1%positive = Some (PyCstring (mk (bytes ","))) ∧ wf (mk (bytes ","))
  ∧ stored h [2%positive; 3%positive] [mk [97; 0]; mk (bytes "b")]
  ∧ Forall wf [mk [97; 0]; mk (bytes "b")]
  ∧ ∃ it r acc,
      cstring_join (λ _, 7) 1%positive [2%positive; 3%positive] h
      = (<[r := PyCstring acc]> (<[it := PyOther]> h), Ok (Some r))
      ∧ h !! it = None ∧ h !! r = None ∧ r ≠ it
      ∧ content acc = [97; 0; 44; 98].
Proof.
  intros h.
  assert (stored h [2%positive; 3%positive] [mk [97; 0]; mk (bytes "b")]) as Hst
    by (repeat constructor).
  assert (Forall wf [mk [97; 0]; mk (bytes "b")]) as Hwf
    by (repeat constructor; apply mk_wf).
  split; [reflexivity|]. split; [apply mk_wf|]. split; [exact Hst|]. split; [exact Hwf|].
  destruct (join_result (λ _, 7) h 1%positive (mk (bytes ","))
              [2%positive; 3%positive] [mk [97; 0]; mk (bytes "b")]
              eq_refl (mk_wf _) Hst Hwf)
    as (it & Hit & r & acc & E & Hr & Hne & _ & _ & _ & Hc).
  exists it, r, acc. split; [exact E|]. split; [exact Hit|]. split; [exact Hr|].
  split; [exact Hne|]. rewrite Hc. reflexivity.
Defined.







(** ** Counting *)

Lemma wrap_long_small (z : Z) : 0 ≤ z < 2 ^ 63 → wrap_long z = z.
Proof. intros Hz. unfold wrap_long. rewrite Z.mod_small; lia. Qed.

Lemma count_loop_spec (self : cstring) (buf needle : list byte) (s e : Z) (fuel : nat)
    (p result : Z) :
  wf self → nul_free (content self) → str_at buf 0 = Ok needle → needle ≠ [] →
  ob_size self ≤ PY_SSIZE_T_MAX →
  0 ≤ s → s ≤ p ≤ cstring_len self → 0 ≤ result →
  result * Z.of_nat (length needle) ≤ p - s →
  cstring_len self - p < Z.of_nat fuel →
  ∃ n, count_loop fuel (value self)
         {| p_start := s; p_end := e; p_substr := buf;
            p_substr_len := Z.of_nat (length needle) |} p result = Ok n
       ∧ result ≤ n
       ∧ n * Z.of_nat (length needle) ≤ cstring_len self - s
       ∧ (n = result ↔ ∀ i, p ≤ i → ¬ occurs_at (content self) needle i).
Proof.
  intros Hwf Hnf Hbuf Hne Hmax Hs. pose proof (content_length _ Hwf) as Hlen.
  assert (1 ≤ Z.of_nat (length needle)) as Hpos by (destruct needle; [done | simpl; lia]).
  revert p result. induction fuel as [|fuel IH]; intros p result Hp Hr Hinv Hfuel; [lia|].
  cbn [count_loop p_substr p_substr_len p_end].
  rewrite (strstr_content self p buf needle) by (done || lia).
  cbn [mbind outcome_bind].
  destruct (find_sub needle (drop (Z.to_nat p) (content self))) as [k|] eqn:F;
    cbn [fmap option_fmap option_map].
  - apply find_sub_Some in F as (m & -> & Hm & Hpre & _).
    pose proof Hpre as Hocc. apply (occurs_at_prefix _ _ p) in Hocc; [|lia].
    apply is_prefix_true in Hpre.
    assert (p + Z.of_nat m + Z.of_nat (length needle) ≤ cstring_len self) as Hfit.
    { assert (length needle ≤ length (drop m (drop (Z.to_nat p) (content self))))%nat as H.
      { rewrite <- Hpre at 1. rewrite length_take. lia. }
      rewrite !length_drop in H. lia. }
    assert ((result + 1) * Z.of_nat (length needle)
            ≤ p + Z.of_nat m + Z.of_nat (length needle) - s) as Hinv' by nia.
    assert (result + 1 < 2 ^ 63) as Hsmall.
    { unfold PY_SSIZE_T_MAX, cstring_len in *. nia. }
    rewrite wrap_long_small by lia.
    assert (¬ ∀ i, p ≤ i → ¬ occurs_at (content self) needle i) as Hsome.
    { intros Hno. apply (Hno (p + Z.of_nat m)); [lia | done]. }
    destruct (Z.geb_spec (p + Z.of_nat m + Z.of_nat (length needle)) e).
    + exists (result + 1). split; [done|]. split; [lia|]. split; [nia|].
      split; [lia | done].
    + destruct (IH (p + Z.of_nat m + Z.of_nat (length needle)) (result + 1))
        as (n & E & Hn & Hbound & _); [lia..|].
      exists n. split; [done|]. split; [lia|]. split; [done|]. split; [lia | done].
  - exists result. split; [done|]. split; [lia|]. split; [nia|]. split; [|done].
    intros _ i Hi Hocc. pose proof (find_sub_None _ _ F (Z.to_nat (i - p))) as Hno.
    replace i with (p + Z.of_nat (Z.to_nat (i - p))) in Hocc by lia.
    apply occurs_at_prefix in Hocc; [|lia]. congruence.
Qed.

(** X20.  [count] with a non-empty pattern, on values without zero bytes,
    the pattern's buffer holding a NUL right after its bytes ([arg_ok]:
    text, [bytes], a well-formed [cstring], or another buffer terminated at
    its length): the loop ends within one round per byte of the value, the
    count is not negative, the counted occurrences do not overlap (count
    times pattern length fits between the start and the end of the value),
    and the count is 0 exactly when the pattern does not occur at or after
    the start. *)
Theorem count_nonempty_pattern (fuel : nat) (self : cstring) (pat : PyObject)
    (start_arg end_arg : option Z) :
  wf self → nul_free (content self) →
  arg_ok pat → nul_free (arg_bytes pat) → arg_bytes pat ≠ [] →
  ob_size self ≤ PY_SSIZE_T_MAX →
  cstring_len self < Z.of_nat fuel →
  let s := _fix_index (default 0 start_arg) (cstring_len self) in
  ∃ n, cstring_count fuel self pat start_arg end_arg = Ok n
       ∧ 0 ≤ n
       ∧ n * Z.of_nat (length (arg_bytes pat)) ≤ cstring_len self - s
       ∧ (n = 0 ↔ ∀ i, s ≤ i → ¬ occurs_at (content self) (arg_bytes pat) i).
Proof.
  intros Hwf Hnf Hok Hpnf Hne Hmax Hfuel s.
  destruct (_obj_as_string_and_size_ok pat Hok Hpnf) as (buf & Ebuf & Estr).
  pose proof Hwf as [Hsz _].
  assert (0 ≤ s ≤ cstring_len self) as Hs by (apply _fix_index_range; unfold cstring_len; lia).
  unfold cstring_count, _parse_substr_args. rewrite Ebuf.
  cbn [mbind outcome_bind p_start]. fold s.
  apply (count_loop_spec self buf (arg_bytes pat)); (done || lia).
Qed.

Lemma count_nonempty_pattern_witness :
  wf (mk (bytes "aaaa")) ∧ nul_free (content (mk (bytes "aaaa")))
  ∧ arg_ok (PyUnicode (bytes "aa")) ∧ nul_free (arg_bytes (PyUnicode (bytes "aa")))
  ∧ arg_bytes (PyUnicode (bytes "aa")) ≠ []
  ∧ ob_size (mk (bytes "aaaa")) ≤ PY_SSIZE_T_MAX
  ∧ cstring_len (mk (bytes "aaaa")) < Z.of_nat 5
  ∧ cstring_count 5 (mk (bytes "aaaa")) (PyUnicode (bytes "aa")) None None = Ok 2.
Proof.
  assert (nul_free (content (mk (bytes "aaaa")))) as H1.
  { rewrite mk_content. repeat constructor; discriminate. }
  assert (nul_free (arg_bytes (PyUnicode (bytes "aa")))) as H2.
  { repeat constructor; discriminate. }
  assert (arg_bytes (PyUnicode (bytes "aa")) ≠ []) as H3 by discriminate.
  assert (ob_size (mk (bytes "aaaa")) ≤ PY_SSIZE_T_MAX) as H4 by (vm_compute; discriminate).
  assert (cstring_len (mk (bytes "aaaa")) < Z.of_nat 5) as H5 by (vm_compute; reflexivity).
  split; [apply mk_wf|]. split; [exact H1|]. split; [exact I|]. split; [exact H2|].
  split; [exact H3|]. split; [exact H4|]. split; [exact H5|].
  destruct (count_nonempty_pattern 5 (mk (bytes "aaaa")) (PyUnicode (bytes "aa")) None None
              (mk_wf _) H1 I H2 H3 H4 H5) as (n & E & _).
  rewrite E. vm_compute in E. congruence.
Defined.
(** ** Character classes *)

(** X21.  [isalnum], [isalpha], [isdigit] and [isprintable] on a value without
    zero bytes: true exactly when every byte is in the class, so true on
    the empty value. *)
Theorem class_predicates_all_bytes (self : cstring) :
  wf self → nul_free (content self) →
  cstring_isalnum self = Ok (forallb isalnum (content self))
  ∧ cstring_isalpha self = Ok (forallb isalpha (content self))
  ∧ cstring_isdigit self = Ok (forallb isdigit (content self))
  ∧ cstring_isprintable self = Ok (forallb isprint (content self)).
Proof.
  intros Hwf Hnf.
  unfold cstring_isalnum, cstring_isalpha, cstring_isdigit, cstring_isprintable.
  rewrite (wf_value _ Hwf). by rewrite !all_pred_spec.
Qed.

Lemma class_predicates_all_bytes_witness :
  wf (mk (bytes "a1")) ∧ nul_free (content (mk (bytes "a1")))
  ∧ cstring_isalnum (mk (bytes "a1")) = Ok true
  ∧ cstring_isalpha (mk (bytes "a1")) = Ok false
  ∧ cstring_isdigit (mk (bytes "a1")) = Ok false
  ∧ cstring_isprintable (mk (bytes "a1")) = Ok true.
Proof.
  assert (nul_free (content (mk (bytes "a1")))) as H1.
  { rewrite mk_content. repeat constructor; discriminate. }
  split; [apply mk_wf|]. split; [exact H1|].
  exact (class_predicates_all_bytes (mk (bytes "a1")) (mk_wf _) H1).
Defined.

Lemma isspace_loop_spec (bs rest : list byte) (p : Z) :
  nul_free bs → 0 ≤ p →
  isspace_loop (bs ++ 0 :: rest) p
  = Ok (negb ((p =? 0) && bool_decide (bs = [])) && forallb isspace bs).
Proof.
  intros Hnf. revert p. induction Hnf as [|b bs Hb _ IH]; intros p Hp;
    cbn [isspace_loop app forallb].
  - change (0 =? 0) with true. cbn iota.
    rewrite bool_decide_eq_true_2 by done. by rewrite !andb_true_r.
  - destruct (Z.eqb_spec b 0); [done|].
    rewrite bool_decide_eq_false_2 by done. rewrite andb_false_r.
    destruct (isspace b); cbn [negb andb]; [|done].
    rewrite IH by lia. destruct (Z.eqb_spec (p + 1) 0); [lia|]. done.
Qed.

Lemma cased_rest_spec (iscase : byte → bool) (bs rest : list byte) :
  nul_free bs →
  cased_rest iscase (bs ++ 0 :: rest)
  = Ok (forallb (λ c, negb (isalpha c) || iscase c) bs).
Proof.
  induction 1 as [|b bs Hb _ IH]; simpl; [done|].
  destruct (Z.eqb_spec b 0); [done|].
  destruct (isalpha b), (iscase b); simpl; done.
Qed.

Lemma cased_loop_spec (iscase : byte → bool) (bs rest : list byte) :
  nul_free bs →
  cased_loop iscase (bs ++ 0 :: rest)
  = Ok (existsb isalpha bs && forallb (λ c, negb (isalpha c) || iscase c) bs).
Proof.
  induction 1 as [|b bs Hb Hbs IH]; simpl; [done|].
  destruct (Z.eqb_spec b 0); [done|].
  destruct (isalpha b) eqn:Ea; simpl.
  - destruct (iscase b); simpl; [by apply cased_rest_spec | done].
  - done.
Qed.

Lemma forallb_pointwise {A} (f g : A → bool) (l : list A) :
  (∀ x, f x = g x) → forallb f l = forallb g l.
Proof. intros H. induction l as [|x l IH]; simpl; [done|]. by rewrite H, IH. Qed.

Lemma not_upper_iff (c : byte) : negb (isalpha c) || islower c = negb (isupper c).
Proof.
  unfold isalpha, isupper, islower.
  destruct (Z.leb_spec 65 c), (Z.leb_spec c 90), (Z.leb_spec 97 c), (Z.leb_spec c 122);
    simpl; (done || lia).
Qed.

Lemma not_lower_iff (c : byte) : negb (isalpha c) || isupper c = negb (islower c).
Proof.
  unfold isalpha, isupper, islower.
  destruct (Z.leb_spec 65 c), (Z.leb_spec c 90), (Z.leb_spec 97 c), (Z.leb_spec c 122);
    simpl; (done || lia).
Qed.

(** X22.  [isspace], [islower] and [isupper] on a value without zero bytes.
    [isspace]: the value is not empty and every byte is white space.
    [islower]: the value holds a letter and none of its letters is upper
    case.  [isupper]: it holds a letter and none is lower case. *)
Theorem cased_and_space_predicates (self : cstring) :
  wf self → nul_free (content self) →
  cstring_isspace self
  = Ok (negb (bool_decide (content self = [])) && forallb isspace (content self))
  ∧ cstring_islower self
    = Ok (existsb isalpha (content self) && forallb (λ c, negb (isupper c)) (content self))
  ∧ cstring_isupper self
    = Ok (existsb isalpha (content self) && forallb (λ c, negb (islower c)) (content self)).
Proof.
  intros Hwf Hnf. unfold cstring_isspace, cstring_islower, cstring_isupper.
  rewrite (wf_value _ Hwf).
  rewrite isspace_loop_spec, !cased_loop_spec by (done || lia).
  split; [done|]. split; do 2 f_equal; apply forallb_pointwise.
  - apply not_upper_iff.
  - apply not_lower_iff.
Qed.

Lemma cased_and_space_predicates_witness :
  wf (mk (bytes "ab 1")) ∧ nul_free (content (mk (bytes "ab 1")))
  ∧ cstring_isspace (mk (bytes "ab 1")) = Ok false
  ∧ cstring_islower (mk (bytes "ab 1")) = Ok true
  ∧ cstring_isupper (mk (bytes "ab 1")) = Ok false.
Proof.
  assert (nul_free (content (mk (bytes "ab 1")))) as H1.
  { rewrite mk_content. repeat constructor; discriminate. }
  split; [apply mk_wf|]. split; [exact H1|].
  exact (cased_and_space_predicates (mk (bytes "ab 1")) (mk_wf _) H1).
Defined.
(** ** Split on a separator: the fields *)

Lemma take_drop_take_le {A} (X : list A) (m i n : nat) :
  (i + n ≤ m)%nat → take n (drop i (take m X)) = take n (drop i X).
Proof.
  intros H. replace m with (i + (m - i))%nat by lia.
  rewrite <- take_drop_commute, take_take. f_equal. lia.
Qed.

Lemma occurs_at_is_prefix (hay needle : list byte) (i : Z) :
  occurs_at hay needle i → is_prefix needle (drop (Z.to_nat i) hay) = true.
Proof. intros [_ H]. by apply is_prefix_true. Qed.

(** Nothing occurs in what lies before the first occurrence. *)
Lemma no_match_before_first (needle X : list byte) (m : nat) :
  needle ≠ [] →
  (∀ j : nat, (j < m)%nat → is_prefix needle (drop j X) = false) →
  ∀ i, ¬ occurs_at (take m X) needle i.
Proof.
  intros Hne Hmin i Hocc. pose proof Hocc as [Hi Heq].
  assert (Z.to_nat i + length needle ≤ m)%nat as Hfit.
  { assert (length needle ≤ length (drop (Z.to_nat i) (take m X)))%nat as H.
    { rewrite <- Heq at 1. rewrite length_take. lia. }
    rewrite length_drop, length_take in H.
    destruct needle; [done|]. simpl in *. lia. }
  rewrite take_drop_take_le in Heq by done.
  apply is_prefix_true in Heq. rewrite Hmin in Heq; [done|].
  destruct needle; [done|]. simpl in Hfit. lia.
Qed.

Lemma split_cstring_loop_fields (self sep : cstring) (maxsplit : Z) (fuel : nat)
    (s : Z) (lst : list cstring) :
  wf self → nul_free (content self) → wf sep → nul_free (content sep) →
  content sep ≠ [] →
  0 ≤ s ≤ cstring_len self →
  cstring_len self - s < Z.of_nat fuel →
  ∃ s' fs,
    split_cstring_loop fuel self (value sep) maxsplit s lst = Ok (s', lst ++ (mk <$> fs))
    ∧ 0 ≤ s' ≤ cstring_len self
    ∧ Z.of_nat (length fs) ≤ s' - s ∧ (fs = [] → s' = s)
    ∧ Forall (λ f, ∀ i, ¬ occurs_at f (content sep) i) fs
    ∧ Z.of_nat (length lst + length fs) ≤ Z.max (Z.of_nat (length lst) + 1) maxsplit
    ∧ (fs ≠ [] ∧ maxsplit < Z.of_nat (length lst + length fs) + 1
       ∨ ∀ i, ¬ occurs_at (drop (Z.to_nat s') (content self)) (content sep) i).
Proof.
  intros Hwf Hnf Hwsep Hnsep Hne.
  pose proof (content_length _ Hwf) as Hlen.
  pose proof (content_length _ Hwsep) as Hlsep.
  pose proof Hwf as [Hsz _]. pose proof Hwsep as [Hszs _].
  assert (0 < length (content sep))%nat as Hpos
    by (destruct (content sep); [done | simpl; lia]).
  revert s lst. induction fuel as [|fuel IH]; intros s lst Hs Hfuel; [lia|].
  cbn [split_cstring_loop].
  rewrite (strstr_content self s (value sep) (content sep)); try done.
  2: { rewrite str_at_content by (unfold cstring_len; done || lia). by rewrite drop_0. }
  rewrite bind_Ok.
  destruct (find_sub (content sep) (drop (Z.to_nat s) (content self))) as [k|] eqn:F;
    cbn [fmap option_fmap option_map].
  - apply find_sub_Some in F as (m & -> & Hm & Hp & Hmin).
    rewrite length_drop in Hm.
    pose proof (is_prefix_app _ _ Hp) as Happ.
    assert (m + length (content sep) ≤ length (content self) - Z.to_nat s)%nat as Hfit.
    { apply (f_equal length) in Happ.
      rewrite length_app, !length_drop in Happ. lia. }
    rewrite _cstring_new_ok by (unfold cstring_len in *; lia).
    rewrite bind_Ok.
    rewrite (strlen_content sep 0) by (unfold cstring_len; done || lia).
    rewrite bind_Ok.
    set (f := take (Z.to_nat (s + Z.of_nat m - s)) (drop (Z.to_nat s) (value self))).
    assert (f = take m (drop (Z.to_nat s) (content self))) as Hf.
    { unfold f. replace (Z.to_nat (s + Z.of_nat m - s)) with m by lia.
      rewrite (wf_value _ Hwf), drop_app_le, take_app_le by (rewrite ?length_drop; lia).
      done. }
    assert (∀ i, ¬ occurs_at f (content sep) i) as Hfree.
    { rewrite Hf. by apply no_match_before_first. }
    set (s2 := s + Z.of_nat m + (cstring_len sep - 0)).
    rewrite length_app. cbn [length].
    destruct (Z.gtb_spec (Z.of_nat (length lst + 1) + 1) maxsplit) as [Hbrk|Hgo].
    + exists s2, [f]. cbn [fmap list_fmap length].
      split; [done|]. split; [unfold s2; lia|]. split; [unfold s2; lia|].
      split; [done|].
      split; [by constructor|]. split; [lia|]. left. split; [done | lia].
    + destruct (IH s2 (lst ++ [mk f])) as (s' & fs & E & Hs' & Hcnt & _ & Hfs & Hmax & Hend);
        try (unfold s2; lia).
      exists s', (f :: fs). rewrite E. cbn [fmap list_fmap length].
      rewrite <- app_assoc. cbn [app].
      rewrite length_app in Hmax, Hend. cbn [length] in Hmax, Hend.
      split; [done|]. split; [done|]. split; [unfold s2 in *; lia|].
      split; [done|].
      split; [by constructor|]. split; [lia|].
      destruct Hend as [[_ Hend]|Hend]; [left; split; [done | lia] | by right].
  - exists s, []. cbn [fmap list_fmap length]. rewrite app_nil_r.
    split; [done|]. split; [lia|]. split; [lia|]. split; [done|].
    split; [constructor|]. split; [lia|].
    right. intros i Hocc%occurs_at_is_prefix.
    by rewrite (find_sub_None _ _ F) in Hocc.
Qed.

(** X23.  [split] on a separator (a non-empty [cstring]; no zero bytes in either
    value): the result is a list of at least one field.  The fields before
    the last are new objects with one reference, the list's; the last one
    is returned with two, because the reference from its creation is never
    released.  No field before the last contains the separator.  Without a
    limit ([maxsplit] below 0) the last field does not contain it either.
    With a limit the value is cut at most [maxsplit] times, but never less
    than once when the separator occurs: a limit of 0 acts like a limit
    of 1. *)
Theorem split_on_separator_fields (fuel : nat) (self sep : cstring) (maxsplit : Z) :
  wf self → nul_free (content self) → wf sep → nul_free (content sep) →
  content sep ≠ [] →
  ob_size self ≤ PY_SSIZE_T_MAX →
  cstring_len self < Z.of_nat fuel →
  ∃ fs r,
    cstring_split fuel self (Some (PyCstring sep)) maxsplit
    = Ok ((mk <$> fs) ++ [set_refcnt (mk r) 2])
    ∧ Forall (λ f, ∀ i, ¬ occurs_at f (content sep) i) fs
    ∧ (maxsplit < 0 → ∀ i, ¬ occurs_at r (content sep) i)
    ∧ (0 ≤ maxsplit → Z.of_nat (length fs) ≤ Z.max 1 maxsplit)
    ∧ ((∃ i, occurs_at (content self) (content sep) i) → fs ≠ []).
Proof.
  intros Hwf Hnf Hwsep Hnsep Hne Hmax Hfuel.
  pose proof (content_length _ Hwf) as Hlen. pose proof Hwf as [Hsz _].
  unfold cstring_split, _cstring_split_on_cstring.
  cbn [_ensure_cstring mbind outcome_bind].
  destruct (split_cstring_loop_fields self sep
              (if maxsplit <? 0 then PY_SSIZE_T_MAX else maxsplit) fuel 0 []
              Hwf Hnf Hwsep Hnsep Hne)
    as (s' & fs & E & Hs' & Hcnt & Hnil & Hfs & Hbound & Hend);
    [unfold cstring_len; lia | lia |].
  rewrite E. cbn [mbind outcome_bind app].
  rewrite (strlen_content self s') by done. cbn [mbind outcome_bind].
  rewrite _cstring_new_ok by (unfold cstring_len in *; lia).
  cbn [mbind outcome_bind].
  set (r := take _ (drop _ (value self))).
  assert (r = drop (Z.to_nat s') (content self)) as Hr.
  { unfold r. rewrite (wf_value _ Hwf), drop_app_le by lia.
    rewrite take_app_length'; [done|]. rewrite length_drop. lia. }
  exists fs, r. split; [reflexivity|]. split; [done|].
  cbn [length] in Hbound, Hend. split; [|split].
  - intros Hneg. destruct (Z.ltb_spec maxsplit 0); [|lia].
    destruct Hend as [[_ Hend]|Hend]; [|by rewrite Hr].
    unfold PY_SSIZE_T_MAX, cstring_len in *. lia.
  - intros Hpos. destruct (Z.ltb_spec maxsplit 0); lia.
  - intros (i & Hi) ->. cbn [length] in *.
    destruct Hend as [[Hend _]|Hend]; [done|].
    rewrite (Hnil eq_refl), drop_0 in Hend. by apply (Hend i).
Qed.

Lemma split_on_separator_fields_witness :
  wf (mk (bytes "a,b,c")) ∧ nul_free (content (mk (bytes "a,b,c")))
  ∧ wf (mk (bytes ",")) ∧ nul_free (content (mk (bytes ",")))
  ∧ content (mk (bytes ",")) ≠ []
  ∧ ob_size (mk (bytes "a,b,c")) ≤ PY_SSIZE_T_MAX
  ∧ cstring_len (mk (bytes "a,b,c")) < Z.of_nat 6
  ∧ ∃ fs r,
      cstring_split 6 (mk (bytes "a,b,c")) (Some (PyCstring (mk (bytes ",")))) 0
      = Ok ((mk <$> fs) ++ [set_refcnt (mk r) 2])
      ∧ Forall (λ f, ∀ i, ¬ occurs_at f (content (mk (bytes ","))) i) fs
      ∧ (0 ≤ 0 → Z.of_nat (length fs) ≤ Z.max 1 0)
      ∧ ((∃ i, occurs_at (content (mk (bytes "a,b,c"))) (content (mk (bytes ","))) i) →
         fs ≠ []).
Proof.
  assert (nul_free (content (mk (bytes "a,b,c")))) as H1.
  { rewrite mk_content. repeat constructor; discriminate. }
  assert (nul_free (content (mk (bytes ",")))) as H2.
  { rewrite mk_content. repeat constructor; discriminate. }
  assert (content (mk (bytes ",")) ≠ []) as H3 by discriminate.
  assert (ob_size (mk (bytes "a,b,c")) ≤ PY_SSIZE_T_MAX) as H4 by (vm_compute; discriminate).
  assert (cstring_len (mk (bytes "a,b,c")) < Z.of_nat 6) as H5 by (vm_compute; reflexivity).
  split; [apply mk_wf|]. split; [exact H1|]. split; [apply mk_wf|]. split; [exact H2|].
  split; [exact H3|]. split; [exact H4|]. split; [exact H5|].
  destruct (split_on_separator_fields 6 (mk (bytes "a,b,c")) (mk (bytes ",")) 0
              (mk_wf _) H1 (mk_wf _) H2 H3 H4 H5) as (fs & r & E & Hfs & _ & Hcnt & Hcut).
  exists fs, r. split; [exact E|]. split; [exact Hfs|]. split; [exact Hcnt | exact Hcut].
Defined.
(** ** Split on white space: the fields *)

Lemma run_split (P : byte → bool) (l : list byte) :
  ∃ f r, l = f ++ r ∧ Forall (λ c, P c = true) f
         ∧ ∀ c, head r = Some c → P c = false.
Proof.
  induction l as [|c l (f & r & -> & Hf & Hr)].
  - exists [], []. by repeat split.
  - destruct (P c) eqn:Hc.
    + exists (c :: f), r. repeat split; [by constructor | done].
    + exists [], (c :: f ++ r). repeat split; [constructor|]. by intros ? [= <-].
Qed.

Lemma scan_field_run (seps f t : list byte) (c : byte) (start : Z) :
  Forall (λ c, negb (strchr seps c) = true) f → strchr seps c = true →
  scan_field seps (f ++ c :: t) start = Ok (start + Z.of_nat (length f)).
Proof.
  intros Hf Hc. revert start. induction Hf as [|b f Hb _ IH]; intros start; simpl.
  - rewrite Hc, andb_false_r. f_equal. lia.
  - apply negb_true_iff in Hb. assert (b ≠ 0) as Hb0.
    { intros ->. unfold strchr in Hb. simpl in Hb. done. }
    destruct (Z.eqb_spec b 0); [done|]. rewrite Hb. simpl. rewrite IH. f_equal. lia.
Qed.

Lemma skip_seps_run (seps g t : list byte) (c : byte) (skip : Z) :
  Forall (λ c, strchr seps c = true) g → nul_free g →
  c = 0 ∨ strchr seps c = false →
  skip_seps seps (g ++ c :: t) skip = Ok (skip + Z.of_nat (length g)).
Proof.
  intros Hg Hnf Hc. revert skip.
  induction Hg as [|b g Hb _ IH]; intros skip; simpl.
  - assert (negb (c =? 0) && strchr seps c = false) as ->.
    { destruct Hc as [-> | ->]; [done | by rewrite andb_false_r]. }
    f_equal. lia.
  - apply Forall_cons in Hnf as [Hb0 Hnf].
    destruct (Z.eqb_spec b 0); [done|]. rewrite Hb. simpl. rewrite IH by done.
    f_equal. lia.
Qed.

Lemma filter_all (P : byte → bool) (l : list byte) :
  Forall (λ c, P c = true) l → filter (λ c, P c = true) l = l.
Proof.
  induction 1 as [|c l Hc _ IH]; [done|].
  rewrite filter_cons. destruct (decide (P c = true)); [by rewrite IH | done].
Qed.

Lemma filter_none (P : byte → bool) (l : list byte) :
  Forall (λ c, P c = false) l → filter (λ c, P c = true) l = [].
Proof.
  induction 1 as [|c l Hc _ IH]; [done|].
  rewrite filter_cons. destruct (decide (P c = true)); [congruence | done].
Qed.

Section SplitChars.

Variables (self : cstring) (bs seps : list byte) (M : Z).
Hypothesis Hval : value self = bs ++ [0; 0].
Hypothesis Hnf : nul_free bs.

Lemma split_chars_loop_spec (fuel : nat) (p : Z) (lst : list cstring) :
  0 ≤ p ≤ Z.of_nat (length bs) + 1 →
  Z.of_nat (length bs) + 1 - p < Z.of_nat fuel →
  Z.of_nat (length lst) + (Z.of_nat (length bs) + 1 - p) + 1 ≤ M →
  ∃ fs,
    split_chars_loop fuel self seps M p lst = Ok (lst ++ (mk <$> fs))
    ∧ Forall (Forall (λ c, nonsep seps c = true)) fs
    ∧ concat fs = filter (λ c, nonsep seps c = true) (drop (Z.to_nat p) bs)
    ∧ Forall (λ f, f ≠ []) (tail fs)
    ∧ ((∀ c, head (drop (Z.to_nat p) bs) = Some c → nonsep seps c = true) →
       Forall (λ f, f ≠ []) fs).
Proof.
  revert p lst. induction fuel as [|fuel IH]; intros p lst Hp Hfuel Hcnt; [lia|].
  cbn [split_chars_loop]. rewrite Hval.
  destruct (drop (Z.to_nat p) bs) as [|c0 rest0] eqn:Erest.
  { (* at or past the terminator *)
    assert (Z.of_nat (length bs) ≤ p) as Hge.
    { apply (f_equal length) in Erest. rewrite length_drop in Erest. simpl in Erest. lia. }
    assert (rd (bs ++ [0; 0]) p = Ok 0) as ->.
    { unfold rd. destruct (Z.ltb_spec p 0); [lia|].
      rewrite lookup_app_r by lia.
      destruct (decide (p = Z.of_nat (length bs))) as [-> | ].
      - by replace (Z.to_nat (Z.of_nat (length bs)) - length bs)%nat with 0%nat by lia.
      - by replace (Z.to_nat p - length bs)%nat with 1%nat by lia. }
    cbn [mbind outcome_bind]. change (0 =? 0) with true. cbn iota.
    exists []. rewrite app_nil_r. repeat split; constructor. }
  assert (p < Z.of_nat (length bs)) as Hlt.
  { apply (f_equal length) in Erest. rewrite length_drop in Erest. simpl in Erest. lia. }
  assert (nul_free (c0 :: rest0)) as Hnrest.
  { rewrite <- Erest. by apply Forall_drop. }
  assert (rd (bs ++ [0; 0]) p = Ok c0) as ->.
  { unfold rd. destruct (Z.ltb_spec p 0); [lia|].
    rewrite lookup_app_l by lia.
    pose proof (lookup_drop bs (Z.to_nat p) 0) as Hd. rewrite Nat.add_0_r in Hd.
    by rewrite <- Hd, Erest. }
  cbn [mbind outcome_bind].
  destruct (Z.eqb_spec c0 0) as [-> | _]; [by apply Forall_cons in Hnrest as [? _]|].
  assert (mem_from (bs ++ [0; 0]) p = (c0 :: rest0) ++ [0; 0]) as Emem.
  { unfold mem_from. destruct (Z.ltb_spec p 0); [lia|].
    by rewrite drop_app_le, Erest by lia. }
  destruct (run_split (nonsep seps) (c0 :: rest0)) as (f & r & Efr & Hf & Hr).
  assert (length f + length r = length bs - Z.to_nat p)%nat as Hlens.
  { apply (f_equal length) in Efr. rewrite length_app in Efr.
    apply (f_equal length) in Erest. rewrite length_drop in Erest. lia. }
  assert (scan_field seps (mem_from (bs ++ [0; 0]) p) p = Ok (p + Z.of_nat (length f)))
    as ->.
  { rewrite Emem, Efr, <- app_assoc.
    destruct r as [|s0 r'].
    - simpl. by apply scan_field_run.
    - simpl. apply scan_field_run; [done|].
      specialize (Hr s0 eq_refl). by apply negb_false_iff in Hr. }
  cbn [mbind outcome_bind].
  rewrite <- Hval. rewrite _cstring_new_ok; [|lia|lia|rewrite Hval, length_app; simpl; lia].
  cbn [mbind outcome_bind].
  assert (take (Z.to_nat (p + Z.of_nat (length f) - p)) (drop (Z.to_nat p) (value self)) = f)
    as ->.
  { replace (Z.to_nat (p + Z.of_nat (length f) - p)) with (length f) by lia.
    rewrite Hval, drop_app_le, Erest, Efr, <- app_assoc by lia. apply take_app_length. }
  rewrite Hval.
  assert (filter (λ c, nonsep seps c = true) f = f) as Hff by (by apply filter_all).
  assert ((∀ c, head (c0 :: rest0) = Some c → nonsep seps c = true) → f ≠ []) as Hfne.
  { intros Hhead ->. simpl in Efr. subst r.
    specialize (Hr c0 eq_refl). rewrite (Hhead c0 eq_refl) in Hr. done. }
  rewrite length_app. cbn [length].
  destruct r as [|s0 r'].
  - (* the field runs to the terminator *)
    rewrite app_nil_r in Efr.
    assert (p + Z.of_nat (length f) = Z.of_nat (length bs)) as Hend
      by (simpl in Hlens; lia).
    assert (skip_seps seps (mem_from (bs ++ [0; 0]) (p + Z.of_nat (length f) + 1))
              (p + Z.of_nat (length f) + 1) = Ok (Z.of_nat (length bs) + 1)) as ->.
    { rewrite Hend. unfold mem_from.
      destruct (Z.ltb_spec (Z.of_nat (length bs) + 1) 0); [lia|].
      replace (Z.to_nat (Z.of_nat (length bs) + 1)) with (length bs + 1)%nat by lia.
      by rewrite drop_app_add. }
    cbn [mbind outcome_bind].
    destruct (Z.gtb_spec (Z.of_nat (length lst + 1) + 1) M) as [|_]; [lia|].
    destruct (IH (Z.of_nat (length bs) + 1) (lst ++ [mk f]))
      as (fs & E & Hfs & Hcat & Htl & Hall);
      [lia | lia | rewrite length_app; simpl; lia |].
    rewrite drop_ge in Hcat, Hall by lia.
    rewrite E. exists (f :: fs). rewrite <- app_assoc. split; [done|].
    split; [by constructor|]. split; [|split].
    + simpl. rewrite Hcat, filter_nil, app_nil_r. by rewrite Efr, Hff.
    + simpl. by apply Hall.
    + intros Hhead. constructor; [by apply Hfne | by apply Hall].
  - (* the field ends at a separator *)
    assert (nonsep seps s0 = false) as Hs0 by (by apply Hr).
    assert (nul_free r') as Hnr'.
    { rewrite Efr in Hnrest. apply Forall_app in Hnrest as [_ H].
      by apply Forall_cons in H as [_ ?]. }
    destruct (run_split (strchr seps) r') as (g & r2 & Eg & Hg & Hr2).
    assert (nul_free g ∧ nul_free r2) as [Hng Hnr2] by (rewrite Eg in Hnr'; by apply Forall_app).
    cbn [length] in Hlens. rewrite Eg, length_app in Hlens.
    set (p' := p + Z.of_nat (length f) + 1 + Z.of_nat (length g)).
    assert (drop (Z.to_nat p') bs = r2) as Edrop.
    { replace (Z.to_nat p') with (Z.to_nat p + length (f ++ s0 :: g))%nat
        by (unfold p'; rewrite length_app; simpl; lia).
      rewrite <- drop_drop, Erest, Efr, Eg.
      replace (f ++ s0 :: g ++ r2) with ((f ++ s0 :: g) ++ r2)
        by (by rewrite <- app_assoc).
      apply drop_app_length. }
    assert (skip_seps seps (mem_from (bs ++ [0; 0]) (p + Z.of_nat (length f) + 1))
              (p + Z.of_nat (length f) + 1) = Ok p') as ->.
    { unfold mem_from.
      destruct (Z.ltb_spec (p + Z.of_nat (length f) + 1) 0); [lia|].
      assert (drop (Z.to_nat (p + Z.of_nat (length f) + 1)) (bs ++ [0; 0])
              = g ++ r2 ++ [0; 0]) as ->.
      { rewrite drop_app_le by lia.
        replace (Z.to_nat (p + Z.of_nat (length f) + 1))
          with (Z.to_nat p + (length f + 1))%nat by lia.
        rewrite <- drop_drop, Erest, Efr, Eg.
        replace (length f + 1)%nat with (length (f ++ [s0]))
          by (rewrite length_app; simpl; lia).
        replace (f ++ s0 :: g ++ r2) with ((f ++ [s0]) ++ g ++ r2)
          by (by rewrite <- app_assoc).
        by rewrite drop_app_length, <- app_assoc. }
      destruct r2 as [|c2 r2'].
      - simpl. apply skip_seps_run; [done | done | by left].
      - simpl. apply skip_seps_run; [done | done | right]. by apply Hr2. }
    cbn [mbind outcome_bind].
    destruct (Z.gtb_spec (Z.of_nat (length lst + 1) + 1) M) as [|_]; [lia|].
    destruct (IH p' (lst ++ [mk f])) as (fs & E & Hfs & Hcat & Htl & Hall);
      [unfold p'; lia | unfold p'; lia | rewrite length_app; unfold p'; simpl; lia |].
    rewrite Edrop in Hcat, Hall.
    assert (Forall (λ f, f ≠ []) fs) as Hfsne.
    { apply Hall. intros c Hc. apply Hr2 in Hc. unfold nonsep. by rewrite Hc. }
    rewrite E. exists (f :: fs). rewrite <- app_assoc. split; [done|].
    split; [by constructor|]. split; [|split].
    + simpl. rewrite Hcat, Efr, Eg. rewrite filter_app, Hff. f_equal.
      rewrite filter_cons. destruct (decide (nonsep seps s0 = true)); [congruence|].
      rewrite filter_app. rewrite (filter_none (nonsep seps) g); [done|].
      eapply Forall_impl; [exact Hg|]. intros c Hc. unfold nonsep. by rewrite Hc.
    + done.
    + intros Hhead. constructor; [by apply Hfne | done].
Qed.

End SplitChars.

(** X24.  [split] without a separator and without a limit, on an object whose
    storage is the bytes [bs] (none of them zero), the terminator and the
    spare zero byte the allocator adds: the loop ends, no field holds a
    white-space byte, the fields put together are [bs] without its
    white-space bytes, and every field after the first is non-empty; so is
    the first unless [bs] starts with white space. *)
Theorem split_whitespace_fields (fuel : nat) (self : cstring) (bs : list byte)
    (maxsplit : Z) :
  value self = bs ++ [0; 0] → nul_free bs → maxsplit < 0 →
  Z.of_nat (length bs) + 1 < Z.of_nat fuel →
  Z.of_nat (length bs) + 2 ≤ PY_SSIZE_T_MAX →
  ∃ fs,
    cstring_split fuel self None maxsplit = Ok (mk <$> fs)
    ∧ Forall (Forall (λ c, strchr WHITESPACE_CHARS c = false)) fs
    ∧ concat fs = filter (λ c, strchr WHITESPACE_CHARS c = false) bs
    ∧ Forall (λ f, f ≠ []) (tail fs)
    ∧ ((∀ c, head bs = Some c → strchr WHITESPACE_CHARS c = false) →
       Forall (λ f, f ≠ []) fs).
Proof.
  intros Hval Hnf Hneg Hfuel Hmax.
  unfold cstring_split, _cstring_split_on_chars.
  destruct (Z.ltb_spec maxsplit 0); [|lia].
  destruct (split_chars_loop_spec self bs WHITESPACE_CHARS PY_SSIZE_T_MAX
              Hval Hnf fuel 0 [])
    as (fs & E & Hfs & Hcat & Htl & Hall); [lia | lia | simpl; lia |].
  change (Z.to_nat 0) with 0%nat in *. rewrite drop_0 in *.
  exists fs. split; [done|].
  assert (∀ c, negb (strchr WHITESPACE_CHARS c) = true ↔ strchr WHITESPACE_CHARS c = false)
    as Hiff by (intros c; apply negb_true_iff).
  split; [|split; [|split]].
  - eapply Forall_impl; [exact Hfs|]. intros f Hf.
    eapply Forall_impl; [exact Hf|]. intros c Hc. by apply Hiff.
  - rewrite Hcat. apply list_filter_iff. intros c. apply Hiff.
  - done.
  - intros Hhead. apply Hall. intros c Hc. apply Hiff. by apply Hhead.
Qed.

Lemma split_whitespace_fields_witness :
  value (mk (bytes "a  b ")) = bytes "a  b " ++ [0; 0]
  ∧ nul_free (bytes "a  b ") ∧ -1 < 0
  ∧ Z.of_nat (length (bytes "a  b ")) + 1 < Z.of_nat 7
  ∧ Z.of_nat (length (bytes "a  b ")) + 2 ≤ PY_SSIZE_T_MAX
  ∧ ∃ fs,
      cstring_split 7 (mk (bytes "a  b ")) None (-1) = Ok (mk <$> fs)
      ∧ concat fs = bytes "ab"
      ∧ Forall (λ f, f ≠ []) fs.
Proof.
  assert (nul_free (bytes "a  b ")) as H1 by (repeat constructor; discriminate).
  assert (Z.of_nat (length (bytes "a  b ")) + 1 < Z.of_nat 7) as H2 by (vm_compute; reflexivity).
  assert (Z.of_nat (length (bytes "a  b ")) + 2 ≤ PY_SSIZE_T_MAX) as H3
    by (vm_compute; discriminate).
  split; [reflexivity|]. split; [exact H1|]. split; [lia|].
  split; [exact H2|]. split; [exact H3|].
  destruct (split_whitespace_fields 7 (mk (bytes "a  b ")) (bytes "a  b ") (-1)
              eq_refl H1 ltac:(lia) H2 H3) as (fs & E & _ & Hcat & _ & Hall).
  exists fs. split; [exact E|]. split; [exact Hcat|].
  apply Hall. intros c [= <-]. reflexivity.
Defined.
